(** * MRM emergency stop operator: takeover state machine and deceleration ramp

    Shallow embedding of
    [system/mrm_emergency_stop_operator/src/mrm_emergency_stop_operator/mrm_emergency_stop_operator_core.cpp].

    The node is a record of its member variables; every callback is a
    function from the node (and the callback's argument) to the new node and
    the messages it sends, in sending order.

    Numbers.  The message fields are [float32], the parameters and the
    intermediate results are [double].  Both are values of [fp]: NaN, the
    two infinities, the negative zero and the rationals.  Every operation
    takes the exact result and rounds it to the nearest number of its
    format, ties to even, with gradual underflow and overflow to infinity:
    [binary64] for the arithmetic on doubles, [binary32] for
    [static_cast<float>].  The promotion of a float to double is exact and
    is not written; a field of type [float32] may hold any value of [fp],
    and [is_float32] says that it holds a finite single-precision number.
    Expressions are evaluated as they are written, each operation rounded
    on its own.  The examples [agrees_with_SpecFloat_*] compare the
    operations with the reference implementation of the standard library.

    Time.  [rclcpp::Time] is a count of nanoseconds ([Z]); a message stamp
    holds the same instant, which is so for the instants that a stamp can
    hold, from 0 to 2^31 seconds.  The seconds of a duration are its count
    of nanoseconds converted to double and divided by a billion.  Each call
    of [this->now()] reads the clock once: a callback receives the readings
    it will obtain, [clk 0] for its first call of [now()], [clk 1] for the
    second, and so on. *)

From Stdlib Require Import ZArith QArith Qround Qabs Qpower Lia Lqa List Bool.
From Stdlib Require Import SpecFloat.
Import ListNotations.

Open Scope Q_scope.

(** ** Rounding a rational to a binary format *)

Definition pow2 (e : Z) : Q := 2 ^ e.

(** The integer part of the binary logarithm of a positive rational. *)
Definition ilog2 (a : Q) : Z :=
  let k := (Z.log2 (Qnum a) - Z.log2 (Zpos (Qden a)))%Z in
  if Qle_bool (pow2 k) a then k else (k - 1)%Z.

(** The nearest integer, the even one of two that are equally near. *)
Definition rne (a : Q) : Z :=
  let f := Qfloor (a + (1 # 2)) in
  if Qeq_bool (inject_Z f) (a + (1 # 2)) && Z.odd f then (f - 1)%Z else f.

(** A binary format: [prec] bits of precision, least positive number
    [2 ^ emin], every finite number below [2 ^ emax]. *)
Record format := mkFormat { prec : Z; emin : Z; emax : Z }.

Definition binary32 : format := mkFormat 24 (-149) 128.
Definition binary64 : format := mkFormat 53 (-1074) 1024.

Definition wf (fmt : format) : Prop := (1 <= prec fmt)%Z.

(** The numbers of [f] are numbers of [g]. *)
Definition subformat (f g : format) : Prop :=
  (prec f <= prec g)%Z /\ (emin g <= emin f)%Z.

(** The exponent of the last bit kept when a positive [a] is rounded. *)
Definition cexp (fmt : format) (a : Q) : Z :=
  Z.max (ilog2 a - (prec fmt - 1)) (emin fmt).

(** The nearest multiple of [2 ^ e]. *)
Definition rnd_at (e : Z) (a : Q) : Q := inject_Z (rne (a * pow2 (- e))) * pow2 e.

(** A positive rational rounded to the format, the exponent not bounded
    above. *)
Definition rnd_abs (fmt : format) (a : Q) : Q :=
  inject_Z (rne (a * pow2 (- cexp fmt a))) * pow2 (cexp fmt a).

(** Any rational rounded to the format, the exponent not bounded above. *)
Definition rnd (fmt : format) (q : Q) : Q :=
  match q ?= 0 with
  | Eq => 0
  | Gt => rnd_abs fmt q
  | Lt => - rnd_abs fmt (- q)
  end.

(** ** Floating-point numbers *)

(** [Num q] is the finite number [q]; [Num 0] is the positive zero. *)
Inductive fp := NaN | PInf | NInf | NegZero | Num (q : Q).

Definition fval (x : fp) : Q := match x with Num q => q | _ => 0 end.

Definition is_finite (x : fp) : bool :=
  match x with Num _ | NegZero => true | _ => false end.

Definition is_nan (x : fp) : bool :=
  match x with NaN => true | _ => false end.

Definition Qlt_bool (a b : Q) : bool := negb (Qle_bool b a).

Definition sign_bit (x : fp) : bool :=
  match x with
  | NInf | NegZero => true
  | Num q => Qlt_bool q 0
  | _ => false
  end.

Definition zero (neg : bool) : fp := if neg then NegZero else Num 0.
Definition inf (neg : bool) : fp := if neg then NInf else PInf.

Definition is_zero (x : fp) : bool :=
  match x with NegZero => true | Num q => Qeq_bool q 0 | _ => false end.

(** A rational rounded to a number of the format: to an infinity when the
    rounded magnitude reaches [2 ^ emax], to the zero of its sign when it
    rounds to nothing.  The finite results are in lowest terms. *)
Definition round (fmt : format) (q : Q) : fp :=
  match q ?= 0 with
  | Eq => Num 0
  | Gt =>
      let v := rnd_abs fmt q in
      if Qle_bool (pow2 (emax fmt)) v then PInf else Num (Qred v)
  | Lt =>
      let v := rnd_abs fmt (- q) in
      if Qle_bool (pow2 (emax fmt)) v then NInf
      else if Qeq_bool v 0 then NegZero else Num (Qred (- v))
  end.

(** The comparison of IEEE 754: none with a NaN, the zeros equal. *)
Definition fcompare (x y : fp) : option comparison :=
  match x with
  | NaN => None
  | PInf => match y with NaN => None | PInf => Some Eq | _ => Some Gt end
  | NInf => match y with NaN => None | NInf => Some Eq | _ => Some Lt end
  | NegZero | Num _ =>
      match y with
      | NaN => None
      | PInf => Some Lt
      | NInf => Some Gt
      | NegZero | Num _ => Some (fval x ?= fval y)
      end
  end.

(** [x < y], [x == y] and [x <= y] *)
Definition flt (x y : fp) : bool :=
  match fcompare x y with Some Lt => true | _ => false end.
Definition feq (x y : fp) : bool :=
  match fcompare x y with Some Eq => true | _ => false end.
Definition fle (x y : fp) : bool :=
  match fcompare x y with Some Lt | Some Eq => true | _ => false end.

(** [x + y] *)
Definition fadd (fmt : format) (x y : fp) : fp :=
  match x with
  | NaN => NaN
  | PInf => match y with NaN | NInf => NaN | _ => PInf end
  | NInf => match y with NaN | PInf => NaN | _ => NInf end
  | NegZero | Num _ =>
      match y with
      | NaN => NaN
      | PInf => PInf
      | NInf => NInf
      | NegZero | Num _ =>
          if is_zero x && is_zero y then zero (sign_bit x && sign_bit y)
          else let q := fval x + fval y in
               if Qeq_bool q 0 then Num 0 else round fmt q
      end
  end.

(** [x * y] *)
Definition fmul (fmt : format) (x y : fp) : fp :=
  let s := xorb (sign_bit x) (sign_bit y) in
  match x with
  | NaN => NaN
  | PInf | NInf =>
      match y with
      | NaN => NaN
      | _ => if is_zero y then NaN else inf s
      end
  | NegZero | Num _ =>
      match y with
      | NaN => NaN
      | PInf | NInf => if is_zero x then NaN else inf s
      | NegZero | Num _ =>
          if is_zero x || is_zero y then zero s
          else round fmt (fval x * fval y)
      end
  end.

(** [x / y] *)
Definition fdiv (fmt : format) (x y : fp) : fp :=
  let s := xorb (sign_bit x) (sign_bit y) in
  match x with
  | NaN => NaN
  | PInf | NInf =>
      match y with
      | NaN | PInf | NInf => NaN
      | _ => inf s
      end
  | NegZero | Num _ =>
      match y with
      | NaN => NaN
      | PInf | NInf => zero s
      | NegZero | Num _ =>
          if is_zero y then (if is_zero x then NaN else inf s)
          else if is_zero x then zero s
          else round fmt (fval x / fval y)
      end
  end.

(** The conversion of a number to a format. *)
Definition fcast (fmt : format) (x : fp) : fp :=
  match x with
  | Num q => round fmt q
  | _ => x
  end.

(** The conversion of an integer to a format. *)
Definition of_Z (fmt : format) (z : Z) : fp := round fmt (inject_Z z).

(** ** The numbers of the program *)

Definition double := fp.
Definition float32 := fp.

(** The operators [+], [*] and [/] on doubles. *)
Definition dadd (x y : double) : double := fadd binary64 x y.
Definition dmul (x y : double) : double := fmul binary64 x y.
Definition ddiv (x y : double) : double := fdiv binary64 x y.

(** [static_cast<float>(x)] *)
Definition static_cast_float (x : double) : float32 := fcast binary32 x.

(** [std::max(a, b)], which is [(a < b) ? b : a] *)
Definition std_max (a b : double) : double := if flt a b then b else a.

(** The double and the float nearest to a decimal literal. *)
Definition d64 (q : Q) : double := round binary64 q.
Definition f32 (q : Q) : float32 := static_cast_float (d64 q).

(** A finite number that is a single-precision number: the conversion to
    float leaves it as it is.  Every finite value of a message field is
    one. *)
Definition is_float32 (x : fp) : bool := is_finite x && feq (static_cast_float x) x.

(** A finite number that is not negative. *)
Definition nonneg_finite (x : fp) : bool := is_finite x && fle (Num 0) x.

(** The value of a number of the standard library's specification of
    floating-point arithmetic. *)
Definition of_spec (x : spec_float) : fp :=
  match x with
  | S754_zero s => zero s
  | S754_infinity s => inf s
  | S754_nan => NaN
  | S754_finite s m e =>
      Num (Qred ((if s then -1 else 1) * inject_Z (Zpos m) * pow2 e))
  end.

(** The same field of [fp], the finite numbers in lowest terms. *)
Definition same_fp (a b : fp) : bool :=
  match a, b with
  | NaN, NaN | PInf, PInf | NInf, NInf | NegZero, NegZero => true
  | Num p, Num q => Z.eqb (Qnum p) (Qnum q) && Pos.eqb (Qden p) (Qden q)
  | _, _ => false
  end.

(** Doubles and floats of the standard library's specification, given by
    an integer and a binary exponent. *)
Definition sf64 (me : Z * Z) : spec_float :=
  binary_normalize 53 1024 (fst me) (snd me) false.

(** [static_cast<float>] in the standard library's specification. *)
Definition sf_cast32 (x : spec_float) : spec_float :=
  match x with
  | S754_finite s m e => binary_normalize 24 128 (cond_Zopp s (Zpos m)) e s
  | _ => x
  end.

(** Integers and exponents for the comparison: ordinary numbers, numbers
    with more bits than a double keeps, ties, the least and the greatest
    doubles and floats. *)
Definition sf_samples : list (Z * Z) :=
  [(1, 0); (3, -1); (-27, -3); (12345678901234567890, -40);
   (-98765432109876543211, -70); (1, -1074); (3, -1075); (1, -1075);
   (-1, -1075); (5, -1076); (1, 1023); (-7, 1021); (2 ^ 53 + 1, 0);
   (2 ^ 53 + 3, 0); (2 ^ 54 - 1, 970); (2 ^ 54 - 1, 969); (0, 5);
   (1, -149); (3, -151); (1, -150); (2 ^ 25 - 1, 103); (2 ^ 25 - 1, 102);
   (2 ^ 24 + 1, 0)]%Z.

Definition sf_specials : list spec_float :=
  [S754_zero false; S754_zero true; S754_infinity false; S754_infinity true;
   S754_nan; sf64 (3, -1)%Z; sf64 (-5, 2)%Z].

(** An operation of the specification and one of [fp] give the same
    result on two numbers. *)
Definition sf_agree (sfop : spec_float -> spec_float -> spec_float)
    (op : fp -> fp -> fp) (ab : spec_float * spec_float) : bool :=
  same_fp (of_spec (sfop (fst ab) (snd ab))) (op (of_spec (fst ab)) (of_spec (snd ab))).

(** The pairs for the comparison: each sample with the next one and with
    the one at the same place from the end, and every pair of the special
    numbers. *)
Definition sf_inputs : list (spec_float * spec_float) :=
  let l := map sf64 sf_samples in
  combine l (tl l ++ firstn 1 l) ++ combine l (rev l)
  ++ list_prod sf_specials sf_specials.

(** ** Time *)

(** Nanoseconds since the epoch. *)
Definition Time := Z.

(** The readings of the node's clock during one callback. *)
Definition Clock := nat -> Time.

(** A clock that does not advance during the callback. *)
Definition frozen (t : Time) : Clock := fun _ => t.

(** The readings left after the first [k] calls of [now()]. *)
Definition after (k : nat) (clk : Clock) : Clock := fun i => clk (k + i)%nat.

(** [(t1 - t0).seconds()]: the count of nanoseconds of the duration,
    converted to double and divided by a billion. *)
Definition seconds (t1 t0 : Time) : double :=
  ddiv (of_Z binary64 (t1 - t0)) (Num 1000000000).

(** ** Messages *)

Module AckermannLateralCommand.
Record t := mk {
  stamp : Time;
  steering_tire_angle : float32;
  steering_tire_rotation_rate : float32
}.
(** A default-constructed message: every field zero. *)
Definition zero : t := mk 0%Z (Num 0) (Num 0).
End AckermannLateralCommand.

Module LongitudinalCommand.
Record t := mk {
  stamp : Time;
  speed : float32;
  acceleration : float32;
  jerk : float32
}.
Definition zero : t := mk 0%Z (Num 0) (Num 0) (Num 0).
End LongitudinalCommand.

Module AckermannControlCommand.
Record t := mk {
  stamp : Time;
  lateral : AckermannLateralCommand.t;
  longitudinal : LongitudinalCommand.t
}.
Definition zero : t :=
  mk 0%Z AckermannLateralCommand.zero LongitudinalCommand.zero.
End AckermannControlCommand.

Module MrmBehaviorStatus.
(** The constants of the [state] field. *)
Inductive State := NOT_AVAILABLE | AVAILABLE | OPERATING.

Definition State_eqb (a b : State) : bool :=
  match a, b with
  | NOT_AVAILABLE, NOT_AVAILABLE | AVAILABLE, AVAILABLE
  | OPERATING, OPERATING => true
  | _, _ => false
  end.

Record t := mk {
  stamp : Time;
  state : State
}.
End MrmBehaviorStatus.

Import MrmBehaviorStatus (State, NOT_AVAILABLE, AVAILABLE, OPERATING, State_eqb).

Definition Lateral := AckermannLateralCommand.t.
Definition Longitudinal := LongitudinalCommand.t.
Definition Command := AckermannControlCommand.t.
Definition Status := MrmBehaviorStatus.t.

(** Shorthands for the longitudinal and lateral fields of a command. *)
Definition speed_of (c : Command) : float32 :=
  LongitudinalCommand.speed (AckermannControlCommand.longitudinal c).
Definition acceleration_of (c : Command) : float32 :=
  LongitudinalCommand.acceleration (AckermannControlCommand.longitudinal c).
Definition jerk_of (c : Command) : float32 :=
  LongitudinalCommand.jerk (AckermannControlCommand.longitudinal c).
Definition steering_tire_angle_of (c : Command) : float32 :=
  AckermannLateralCommand.steering_tire_angle (AckermannControlCommand.lateral c).
Definition steering_tire_rotation_rate_of (c : Command) : float32 :=
  AckermannLateralCommand.steering_tire_rotation_rate
    (AckermannControlCommand.lateral c).
Definition longitudinal_stamp_of (c : Command) : Time :=
  LongitudinalCommand.stamp (AckermannControlCommand.longitudinal c).
Definition lateral_stamp_of (c : Command) : Time :=
  AckermannLateralCommand.stamp (AckermannControlCommand.lateral c).

(** ** The node *)

Record Param := mkParam {
  update_rate : Z;
  target_acceleration : double;
  target_jerk : double;
  steering_handling_type : Z
}.

(** The defaults of [declare_parameter]. *)
Definition default_params : Param := mkParam 30 (d64 (-2.5)) (d64 (-1.5)) 0.

Record MrmEmergencyStopOperator := mkNode {
  params_ : Param;
  status_ : Status;
  prev_control_cmd_ : Command;
  lateral_cmd_at_start_of_emergency_stop_ : Lateral;
  is_prev_control_cmd_subscribed_ : bool
}.

Definition Node := MrmEmergencyStopOperator.

Definition state_of (self : Node) : State :=
  MrmBehaviorStatus.state (status_ self).

(** What the node sends. *)
Inductive Output :=
| PubControlCmd (command : Command)   (* pub_control_cmd_->publish *)
| PubStatus (status : Status)         (* pub_status_->publish *)
| Response (success : bool).          (* response->response.success *)

(** The constructor: the parameters come from the node options, the
    messages held by the node are default-constructed. *)
Definition MrmEmergencyStopOperator_new (p : Param) : Node :=
  {| params_ := p;
     status_ := MrmBehaviorStatus.mk 0%Z AVAILABLE;
     prev_control_cmd_ := AckermannControlCommand.zero;
     lateral_cmd_at_start_of_emergency_stop_ := AckermannLateralCommand.zero;
     is_prev_control_cmd_subscribed_ := false |}.

Definition onControlCommand (self : Node) (msg : Command) : Node :=
  if negb (State_eqb (state_of self) OPERATING) then
    {| params_ := params_ self;
       status_ := status_ self;
       prev_control_cmd_ := msg;
       lateral_cmd_at_start_of_emergency_stop_ :=
         lateral_cmd_at_start_of_emergency_stop_ self;
       is_prev_control_cmd_subscribed_ := true |}
  else self.

Definition set_state (self : Node) (s : State) : Node :=
  {| params_ := params_ self;
     status_ := MrmBehaviorStatus.mk (MrmBehaviorStatus.stamp (status_ self)) s;
     prev_control_cmd_ := prev_control_cmd_ self;
     lateral_cmd_at_start_of_emergency_stop_ :=
       lateral_cmd_at_start_of_emergency_stop_ self;
     is_prev_control_cmd_subscribed_ := is_prev_control_cmd_subscribed_ self |}.

Definition set_lateral_cmd_at_start (self : Node) (l : Lateral) : Node :=
  {| params_ := params_ self;
     status_ := status_ self;
     prev_control_cmd_ := prev_control_cmd_ self;
     lateral_cmd_at_start_of_emergency_stop_ := l;
     is_prev_control_cmd_subscribed_ := is_prev_control_cmd_subscribed_ self |}.

Definition set_prev_control_cmd (self : Node) (c : Command) : Node :=
  {| params_ := params_ self;
     status_ := status_ self;
     prev_control_cmd_ := c;
     lateral_cmd_at_start_of_emergency_stop_ :=
       lateral_cmd_at_start_of_emergency_stop_ self;
     is_prev_control_cmd_subscribed_ := is_prev_control_cmd_subscribed_ self |}.

Definition operateEmergencyStop (self : Node) (operate : bool) : Node * bool :=
  if operate then
    let snapshot :=
      if is_prev_control_cmd_subscribed_ self then
        AckermannControlCommand.lateral (prev_control_cmd_ self)
      else
        let l := lateral_cmd_at_start_of_emergency_stop_ self in
        AckermannLateralCommand.mk (AckermannLateralCommand.stamp l) (Num 0) (Num 0) in
    (set_state (set_lateral_cmd_at_start self snapshot) OPERATING, true)
  else
    (set_state self AVAILABLE, true).

(** A copy of [status_] stamped with the current time is published. *)
Definition publishStatus (self : Node) (clk : Clock) : Output :=
  PubStatus (MrmBehaviorStatus.mk (clk 0%nat) (state_of self)).

Definition publishControlCommand (command : Command) : Output :=
  PubControlCmd command.

Definition calcTargetAcceleration
    (self : Node) (clk : Clock) (prev_control_cmd : Command) : Command :=
  if negb (is_prev_control_cmd_subscribed_ self) then
    AckermannControlCommand.mk
      (clk 0%nat)
      (AckermannLateralCommand.mk (clk 2%nat) (Num 0) (Num 0))
      (LongitudinalCommand.mk
         (clk 1%nat)
         (Num 0)
         (static_cast_float (target_acceleration (params_ self)))
         (Num 0))
  else
    let dt := seconds (clk 0%nat) (AckermannControlCommand.stamp prev_control_cmd) in
    AckermannControlCommand.mk
      (clk 1%nat)
      (AckermannControlCommand.lateral prev_control_cmd)
      (LongitudinalCommand.mk
         (clk 2%nat)
         (static_cast_float
            (std_max (dadd (speed_of prev_control_cmd)
                           (dmul (acceleration_of prev_control_cmd) dt))
                     (Num 0)))
         (static_cast_float
            (std_max (dadd (acceleration_of prev_control_cmd)
                           (dmul (target_jerk (params_ self)) dt))
                     (target_acceleration (params_ self))))
         (if feq (acceleration_of prev_control_cmd)
                 (target_acceleration (params_ self))
          then Num 0
          else static_cast_float (target_jerk (params_ self)))).

Definition onTimer (self : Node) (clk : Clock) : Node * list Output :=
  if State_eqb (state_of self) OPERATING then
    let control_cmd := calcTargetAcceleration self clk (prev_control_cmd_ self) in
    let self' := set_prev_control_cmd self control_cmd in
    (self', [publishControlCommand control_cmd; publishStatus self' (after 3 clk)])
  else
    (self, [publishControlCommand (prev_control_cmd_ self); publishStatus self clk]).

(** ** Executions *)

Inductive Event :=
| ControlCommand (msg : Command)   (* a message on the control command topic *)
| OperateMrm (operate : bool)      (* a call of the operate service *)
| Timer (clk : Clock).             (* a tick of the timer *)

Definition step (self : Node) (ev : Event) : Node * list Output :=
  match ev with
  | ControlCommand msg => (onControlCommand self msg, [])
  | OperateMrm operate =>
      let (self', success) := operateEmergencyStop self operate in
      (self', [Response success])
  | Timer clk => onTimer self clk
  end.

(** The node after the events, and everything sent meanwhile, oldest first. *)
Fixpoint run (self : Node) (evs : list Event) : Node * list Output :=
  match evs with
  | [] => (self, [])
  | ev :: evs' =>
      let (self1, out1) := step self ev in
      let (self2, out2) := run self1 evs' in
      (self2, out1 ++ out2)
  end.

Definition final (self : Node) (evs : list Event) : Node := fst (run self evs).
Definition sent (self : Node) (evs : list Event) : list Output := snd (run self evs).

(** The control commands among the messages sent, oldest first. *)
Fixpoint published (out : list Output) : list Command :=
  match out with
  | [] => []
  | PubControlCmd c :: out' => c :: published out'
  | _ :: out' => published out'
  end.

(** The successive outputs of the ramp when each one is fed back as the
    previous command, as [onTimer] does while [OPERATING]. *)
Fixpoint ramp (self : Node) (clks : list Clock) (prev : Command) : list Command :=
  match clks with
  | [] => []
  | clk :: clks' =>
      let c := calcTargetAcceleration self clk prev in
      c :: ramp self clks' c
  end.

(** ** Sample data *)

(** An upstream command stamped at time 0: 10 m/s forward, no acceleration,
    steering angle 0.1 rad. *)
Definition cruise_cmd : Command :=
  AckermannControlCommand.mk 0%Z
    (AckermannLateralCommand.mk 0%Z (f32 0.1) (f32 0))
    (LongitudinalCommand.mk 0%Z (f32 10) (f32 0) (f32 0)).

(** An upstream command stamped at time 0 for driving in reverse: speed
    -1 m/s, acceleration -1 m/s^2. *)
Definition reverse_cmd : Command :=
  AckermannControlCommand.mk 0%Z
    (AckermannLateralCommand.mk 0%Z (f32 0) (f32 0))
    (LongitudinalCommand.mk 0%Z (f32 (-1)) (f32 (-1)) (f32 0)).

(** An upstream command stamped at time 0: 10 m/s forward, braking at
    1 m/s^2. *)
Definition braking_cmd : Command :=
  AckermannControlCommand.mk 0%Z
    (AckermannLateralCommand.mk 0%Z (f32 0.1) (f32 0))
    (LongitudinalCommand.mk 0%Z (f32 10) (f32 (-1)) (f32 0)).

(** An upstream command stamped at time 0: 10 m/s forward, braking at the
    default target acceleration. *)
Definition full_braking_cmd : Command :=
  AckermannControlCommand.mk 0%Z
    (AckermannLateralCommand.mk 0%Z (f32 0.1) (f32 0))
    (LongitudinalCommand.mk 0%Z (f32 10) (f32 (-2.5)) (f32 0)).

(** An upstream command stamped at time 0 whose speed is not a number,
    braking at 1 m/s^2. *)
Definition nan_speed_cmd : Command :=
  AckermannControlCommand.mk 0%Z
    (AckermannLateralCommand.mk 0%Z (f32 0) (f32 0))
    (LongitudinalCommand.mk 0%Z NaN (f32 (-1)) (f32 0)).

(** An upstream command stamped two seconds after time 0: 10 m/s forward,
    braking at 1 m/s^2. *)
Definition future_cmd : Command :=
  AckermannControlCommand.mk 2000000000%Z
    (AckermannLateralCommand.mk 2000000000%Z (f32 0.1) (f32 0))
    (LongitudinalCommand.mk 2000000000%Z (f32 10) (f32 (-1)) (f32 0)).

(** An upstream command stamped one nanosecond after one second: 10 m/s
    forward, braking at 1 m/s^2. *)
Definition just_ahead_cmd : Command :=
  AckermannControlCommand.mk 1000000001%Z
    (AckermannLateralCommand.mk 1000000001%Z (f32 0.1) (f32 0))
    (LongitudinalCommand.mk 1000000001%Z (f32 10) (f32 (-1)) (f32 0)).

(** An upstream command stamped at time 0: standing still, braking at
    1 m/s^2. *)
Definition standstill_cmd : Command :=
  AckermannControlCommand.mk 0%Z
    (AckermannLateralCommand.mk 0%Z (f32 0.1) (f32 0))
    (LongitudinalCommand.mk 0%Z (f32 0) (f32 (-1)) (f32 0)).

(** Stamp, speed, acceleration and jerk of a command. *)
Definition longitudinal_values (c : Command) : Time * float32 * float32 * float32 :=
  (AckermannControlCommand.stamp c, speed_of c, acceleration_of c, jerk_of c).

(** The clock one, two, four and six seconds after time 0. *)
Definition at_1s : Clock := frozen 1000000000%Z.
Definition at_2s : Clock := frozen 2000000000%Z.
Definition at_4s : Clock := frozen 4000000000%Z.
Definition at_6s : Clock := frozen 6000000000%Z.

(** The parameters with the given target acceleration and target jerk, the
    others as by default. *)
Definition params_with (a j : Q) : Param := mkParam 30 (d64 a) (d64 j) 0.

(** A node with the parameters [p] that has observed [c] and is in state
    [s]. *)
Definition node_of (p : Param) (s : State) (c : Command) : Node :=
  {| params_ := p;
     status_ := MrmBehaviorStatus.mk 0%Z s;
     prev_control_cmd_ := c;
     lateral_cmd_at_start_of_emergency_stop_ := AckermannLateralCommand.zero;
     is_prev_control_cmd_subscribed_ := true |}.

(** A node with the default parameters that has observed [c] and is in
    state [s]. *)
Definition node_with (s : State) (c : Command) : Node :=
  {| params_ := default_params;
     status_ := MrmBehaviorStatus.mk 0%Z s;
     prev_control_cmd_ := c;
     lateral_cmd_at_start_of_emergency_stop_ := AckermannLateralCommand.zero;
     is_prev_control_cmd_subscribed_ := true |}.

(** ** Notions used by the statements *)

(** The effect of one event on the state according to the takeover
    requests alone: everything but a request leaves it as it is. *)
Definition takeover (s : State) (ev : Event) : State :=
  match ev with
  | OperateMrm true => OPERATING
  | OperateMrm false => AVAILABLE
  | _ => s
  end.

(** An upstream command among the events is observed: it arrives while the
    takeover requests before it, from the state [s], have left a state
    other than [OPERATING]. *)
Fixpoint observes (s : State) (evs : list Event) : bool :=
  match evs with
  | [] => false
  | ControlCommand _ :: evs' => negb (State_eqb s OPERATING) || observes s evs'
  | ev :: evs' => observes (takeover s ev) evs'
  end.

(** The values of the cold-start output: the acceleration is the target
    acceleration converted to the type of the field. *)
Definition cold_start_values (p : Param) (c : Command) : Prop :=
  speed_of c = Num 0 /\
  acceleration_of c = static_cast_float (target_acceleration p) /\
  jerk_of c = Num 0 /\
  steering_tire_angle_of c = Num 0 /\
  steering_tire_rotation_rate_of c = Num 0.

(** C4 as the specification has it: after events from construction among
    which no upstream command is observed, a tick taken in state
    [OPERATING] publishes a command with speed 0, the target acceleration,
    jerk 0 and steering 0, the equalities being those of [==]. *)
Definition C4_as_stated (p : Param) (evs : list Event) (clk : Clock) : Prop :=
  observes AVAILABLE evs = false ->
  state_of (final (MrmEmergencyStopOperator_new p) evs) = OPERATING ->
  exists c,
    published (snd (onTimer (final (MrmEmergencyStopOperator_new p) evs) clk)) = [c] /\
    feq (speed_of c) (Num 0) = true /\
    feq (acceleration_of c) (target_acceleration p) = true /\
    feq (jerk_of c) (Num 0) = true /\
    feq (steering_tire_angle_of c) (Num 0) = true /\
    feq (steering_tire_rotation_rate_of c) (Num 0) = true.

(** The clocks of the timer ticks among the events, oldest first. *)
Fixpoint ticks (evs : list Event) : list Clock :=
  match evs with
  | [] => []
  | Timer clk :: evs' => clk :: ticks evs'
  | _ :: evs' => ticks evs'
  end.

(** No deactivation request among the events. *)
Definition no_release (evs : list Event) : bool :=
  forallb (fun ev => match ev with OperateMrm false => false | _ => true end) evs.

(** An upstream command [c] is observed, the node is activated, the events
    [ops] happen while it operates, and it is deactivated. *)
Definition takeover_then_release (c : Command) (ops : list Event) : list Event :=
  ControlCommand c :: OperateMrm true :: ops ++ [OperateMrm false].

(** C1 as the specification has it: after such an execution with at least
    one tick while operating, the next tick publishes [c]. *)
Definition C1_as_stated (self : Node) (c : Command) (ops : list Event) (clk : Clock) : Prop :=
  state_of self <> OPERATING ->
  no_release ops = true ->
  ticks ops <> [] ->
  published (snd (onTimer (final self (takeover_then_release c ops)) clk)) = [c].

(** The bounds on a command that the ramp keeps: the speed is not below 0
    and the acceleration is not below the target acceleration converted to
    the type of the field.  A field that is not a number is below
    nothing. *)
Definition within_bounds (p : Param) (c : Command) : Prop :=
  flt (speed_of c) (Num 0) = false /\
  flt (acceleration_of c) (static_cast_float (target_acceleration p)) = false.

(** The bounds of C3 as the specification has them: the acceleration is
    not below the target acceleration itself. *)
Definition stated_bounds (p : Param) (c : Command) : Prop :=
  flt (speed_of c) (Num 0) = false /\
  flt (acceleration_of c) (target_acceleration p) = false.

(** C3 as the specification has it: every command published in an
    execution from construction is within the bounds. *)
Definition C3_as_stated (p : Param) (evs : list Event) : Prop :=
  Forall (stated_bounds p) (published (sent (MrmEmergencyStopOperator_new p) evs)).

(** The elapsed time that a ramp step computes. *)
Definition dt_of (clk : Clock) (prev : Command) : double :=
  seconds (clk 0%nat) (AckermannControlCommand.stamp prev).

(** C6 as the specification has it. *)
Definition C6_as_stated (self : Node) (clk : Clock) (prev : Command) : Prop :=
  let c := calcTargetAcceleration self clk prev in
  fle (Num 0) (dt_of clk prev) = true ->
  flt (target_jerk (params_ self)) (Num 0) = true ->
  flt (target_acceleration (params_ self)) (Num 0) = true ->
  fle (target_acceleration (params_ self)) (acceleration_of prev) = true ->
  (fle (acceleration_of c) (acceleration_of prev) = true /\
   fle (target_acceleration (params_ self)) (acceleration_of c) = true) /\
  (flt (acceleration_of prev) (Num 0) = true ->
   fle (speed_of c) (speed_of prev) = true /\ fle (Num 0) (speed_of c) = true).

(** The elapsed time is a finite number and not negative at each of the
    successive ramp steps that start from [prev]. *)
Fixpoint elapsed_nonneg (self : Node) (clks : list Clock) (prev : Command) : Prop :=
  match clks with
  | [] => True
  | clk :: clks' =>
      nonneg_finite (dt_of clk prev) = true /\
      elapsed_nonneg self clks' (calcTargetAcceleration self clk prev)
  end.

(** The ramp holds the target: acceleration equal to it, jerk 0. *)
Definition holds_target (p : Param) (c : Command) : Prop :=
  feq (acceleration_of c) (target_acceleration p) = true /\ jerk_of c = Num 0.

(** The clamp of the acceleration takes effect at a ramp step: the
    previous acceleration plus jerk times elapsed time is at or below the
    target acceleration. *)
Definition clamped (self : Node) (clk : Clock) (prev : Command) : bool :=
  fle (dadd (acceleration_of prev)
            (dmul (target_jerk (params_ self)) (dt_of clk prev)))
      (target_acceleration (params_ self)).

(** The first half of C5 as the specification has it: the output jerk is 0
    or the target jerk. *)
Definition C5_jerk_as_stated (self : Node) (clk : Clock) (prev : Command) : Prop :=
  is_prev_control_cmd_subscribed_ self = true ->
  let c := calcTargetAcceleration self clk prev in
  (feq (acceleration_of prev) (target_acceleration (params_ self)) = true ->
   feq (jerk_of c) (Num 0) = true) /\
  (feq (acceleration_of prev) (target_acceleration (params_ self)) = false ->
   feq (jerk_of c) (target_jerk (params_ self)) = true).

(** The second half of C5 as the specification has it: after a step at
    which the clamp takes effect the ramp holds the target. *)
Definition C5_hold_as_stated
    (self : Node) (clk : Clock) (prev : Command) (clks : list Clock) : Prop :=
  is_prev_control_cmd_subscribed_ self = true ->
  let c := calcTargetAcceleration self clk prev in
  fle (target_jerk (params_ self)) (Num 0) = true ->
  clamped self clk prev = true ->
  elapsed_nonneg self clks c ->
  Forall (holds_target (params_ self)) (ramp self clks c).

(** The lateral command that an activation request stores as the command
    at the start of the emergency stop. *)
Definition snapshot_of (self : Node) : Lateral :=
  if is_prev_control_cmd_subscribed_ self then
    AckermannControlCommand.lateral (prev_control_cmd_ self)
  else
    AckermannLateralCommand.mk
      (AckermannLateralCommand.stamp (lateral_cmd_at_start_of_emergency_stop_ self))
      (Num 0) (Num 0).

(** Two nodes that agree on every member but
    [lateral_cmd_at_start_of_emergency_stop_]. *)
Definition same_but_snapshot (a b : Node) : Prop :=
  params_ a = params_ b /\
  status_ a = status_ b /\
  prev_control_cmd_ a = prev_control_cmd_ b /\
  is_prev_control_cmd_subscribed_ a = is_prev_control_cmd_subscribed_ b.

(** The status reports among the messages sent, oldest first. *)
Fixpoint statuses (out : list Output) : list Status :=
  match out with
  | [] => []
  | PubStatus s :: out' => s :: statuses out'
  | _ :: out' => statuses out'
  end.

(** The success flags of the responses among the messages sent. *)
Fixpoint responses (out : list Output) : list bool :=
  match out with
  | [] => []
  | Response b :: out' => b :: responses out'
  | _ :: out' => responses out'
  end.

(** The takeover requests among the events, oldest first. *)
Fixpoint requests (evs : list Event) : list bool :=
  match evs with
  | [] => []
  | OperateMrm operate :: evs' => operate :: requests evs'
  | _ :: evs' => requests evs'
  end.

(** The state at each timer tick among the events, when the state before
    them is [s] and only the takeover requests change it. *)
Fixpoint tick_states (s : State) (evs : list Event) : list State :=
  match evs with
  | [] => []
  | Timer _ :: evs' => s :: tick_states s evs'
  | ev :: evs' => tick_states (takeover s ev) evs'
  end.

(** The command that remains stored after the successive ramp steps. *)
Fixpoint ramp_end (self : Node) (clks : list Clock) (prev : Command) : Command :=
  match clks with
  | [] => prev
  | clk :: clks' => ramp_end self clks' (calcTargetAcceleration self clk prev)
  end.

(** * Rounding to a binary format *)

(** ** Powers of two and the binary logarithm *)

Lemma pow2_pos e : 0 < pow2 e.
Proof. apply Qpower_0_lt. reflexivity. Qed.

Lemma pow2_add a b : pow2 (a + b) == pow2 a * pow2 b.
Proof. apply Qpower_plus. discriminate. Qed.

Lemma pow2_le a b : (a <= b)%Z -> pow2 a <= pow2 b.
Proof. intro H. apply Qpower_le_compat_l; [exact H | discriminate]. Qed.

Lemma pow2_lt a b : (a < b)%Z -> pow2 a < pow2 b.
Proof. intro H. apply Qpower_lt_compat_l; [exact H | reflexivity]. Qed.

Lemma pow2_le_inv a b : pow2 a <= pow2 b -> (a <= b)%Z.
Proof. intro H. apply (Qpower_le_compat_l_inv 2); [exact H | reflexivity]. Qed.

Lemma pow2_lt_inv a b : pow2 a < pow2 b -> (a < b)%Z.
Proof. intro H. apply (Qpower_lt_compat_l_inv 2); [exact H | reflexivity]. Qed.

Lemma pow2_cancel e : pow2 (- e) * pow2 e == 1.
Proof. rewrite <- pow2_add. replace (- e + e)%Z with 0%Z by lia. reflexivity. Qed.

Lemma pow2_nat e : (0 <= e)%Z -> pow2 e == inject_Z (2 ^ e).
Proof. intro H. unfold pow2. rewrite Zpower_Qpower by exact H. reflexivity. Qed.

Lemma ilog2_spec a : 0 < a -> pow2 (ilog2 a) <= a /\ a < pow2 (ilog2 a + 1).
Proof.
  intro Ha. destruct a as [n d]. unfold ilog2. cbn [Qnum Qden].
  assert (Hn : (0 < n)%Z).
  { unfold Qlt in Ha. simpl in Ha. lia. }
  set (ln := Z.log2 n). set (ld := Z.log2 (Zpos d)).
  destruct (Z.log2_spec n Hn) as [Hn1 Hn2]. fold ln in Hn1, Hn2.
  destruct (Z.log2_spec (Zpos d) (eq_refl)) as [Hd1 Hd2]. fold ld in Hd1, Hd2.
  assert (Hln : (0 <= ln)%Z) by apply Z.log2_nonneg.
  assert (Hld : (0 <= ld)%Z) by apply Z.log2_nonneg.
  assert (Hq : n # d == inject_Z n * / inject_Z (Zpos d)).
  { rewrite (Qmake_Qdiv n d). reflexivity. }
  assert (Hdpos : 0 < inject_Z (Zpos d)) by reflexivity.
  (* n/d < 2^(ln - ld + 1) *)
  assert (Hup : n # d < pow2 (ln - ld + 1)).
  { rewrite (Qmake_Qdiv n d). apply Qlt_shift_div_r; [exact Hdpos | ].
    replace (ln - ld + 1)%Z with ((ln + 1) + - ld)%Z by lia.
    rewrite pow2_add.
    assert (H1 : inject_Z n < pow2 (ln + 1)).
    { rewrite pow2_nat by lia. rewrite <- Zlt_Qlt.
      replace (ln + 1)%Z with (Z.succ ln) by lia. exact Hn2. }
    assert (H2 : pow2 ld <= inject_Z (Zpos d)).
    { rewrite pow2_nat by lia. rewrite <- Zle_Qle. exact Hd1. }
    assert (H3 := pow2_cancel ld). assert (H4 := pow2_pos (- ld)).
    assert (H5 := pow2_pos (ln + 1)).
    assert (1 <= pow2 (- ld) * inject_Z (Z.pos d)).
    { rewrite <- H3. apply Qmult_le_l; assumption. }
    nra. }
  assert (Hlow : pow2 (ln - ld - 1) <= n # d).
  { rewrite (Qmake_Qdiv n d). apply Qle_shift_div_l; [exact Hdpos | ].
    replace (ln - ld - 1)%Z with (ln + - (ld + 1))%Z by lia.
    rewrite pow2_add.
    assert (H1 : pow2 ln <= inject_Z n).
    { rewrite pow2_nat by lia. rewrite <- Zle_Qle. exact Hn1. }
    assert (H2 : inject_Z (Zpos d) <= pow2 (ld + 1)).
    { rewrite pow2_nat by lia. rewrite <- Zle_Qle.
      replace (ld + 1)%Z with (Z.succ ld) by lia. lia. }
    assert (H3 := pow2_cancel (ld + 1)). assert (H4 := pow2_pos (- (ld + 1))).
    assert (H5 := pow2_pos ln).
    assert (pow2 (- (ld + 1)) * inject_Z (Z.pos d) <= 1).
    { rewrite <- H3. apply Qmult_le_l; assumption. }
    nra. }
  destruct (Qle_bool (pow2 (ln - ld)) (n # d)) eqn:E.
  - apply Qle_bool_iff in E. split; assumption.
  - assert (n # d < pow2 (ln - ld)).
    { apply Qnot_le_lt. intro H. apply Qle_bool_iff in H. congruence. }
    split; [exact Hlow | ].
    replace (ln - ld - 1 + 1)%Z with (ln - ld)%Z by lia. assumption.
Qed.

Lemma ilog2_unique a k : pow2 k <= a -> a < pow2 (k + 1) -> ilog2 a = k.
Proof.
  intros H1 H2.
  assert (Ha : 0 < a) by (assert (H := pow2_pos k); lra).
  destruct (ilog2_spec a Ha) as [H3 H4].
  assert (pow2 k < pow2 (ilog2 a + 1)) by lra.
  assert (pow2 (ilog2 a) < pow2 (k + 1)) by lra.
  apply pow2_lt_inv in H, H0. lia.
Qed.

Lemma ilog2_le a b : 0 < a -> a <= b -> (ilog2 a <= ilog2 b)%Z.
Proof.
  intros Ha Hab.
  destruct (ilog2_spec a Ha) as [H1 H2].
  destruct (ilog2_spec b) as [H3 H4]; [lra | ].
  assert (pow2 (ilog2 a) < pow2 (ilog2 b + 1)) by lra.
  apply pow2_lt_inv in H. lia.
Qed.

Lemma ilog2_lt_pow2 a k : 0 < a -> a < pow2 k -> (ilog2 a < k)%Z.
Proof.
  intros Ha H. destruct (ilog2_spec a Ha) as [H1 _].
  assert (pow2 (ilog2 a) < pow2 k) by lra. now apply pow2_lt_inv.
Qed.

Lemma ilog2_ge_pow2 a k : pow2 k <= a -> (k <= ilog2 a)%Z.
Proof.
  intro H. assert (Ha : 0 < a) by (assert (H0 := pow2_pos k); lra).
  destruct (ilog2_spec a Ha) as [_ H2].
  assert (pow2 k < pow2 (ilog2 a + 1)) by lra.
  apply pow2_lt_inv in H0. lia.
Qed.

Lemma ilog2_Qeq a b : 0 < a -> a == b -> ilog2 a = ilog2 b.
Proof.
  intros Ha Hab. destruct (ilog2_spec a Ha) as [H1 H2].
  symmetry. apply ilog2_unique; lra.
Qed.

(** ** The nearest integer, ties to even *)

Lemma Qfloor_bounds a : inject_Z (Qfloor a) <= a /\ a < inject_Z (Qfloor a) + 1.
Proof.
  split; [apply Qfloor_le | ].
  assert (H := Qlt_floor a). rewrite inject_Z_plus in H. exact H.
Qed.

Lemma rne_cases a :
  let f := Qfloor (a + (1 # 2)) in
  (rne a = f /\ ~ (inject_Z f == a + (1 # 2) /\ Z.odd f = true)) \/
  (rne a = (f - 1)%Z /\ inject_Z f == a + (1 # 2) /\ Z.odd f = true).
Proof.
  intro f. unfold rne. fold f.
  destruct (Qeq_bool (inject_Z f) (a + (1 # 2))) eqn:E; simpl.
  - apply Qeq_bool_eq in E. destruct (Z.odd f) eqn:O.
    + right. auto.
    + left. split; [reflexivity | ]. intros [_ H]. discriminate.
  - left. split; [reflexivity | ]. intros [H _].
    apply Qeq_eq_bool in H. congruence.
Qed.

Lemma rne_mono a b : a <= b -> (rne a <= rne b)%Z.
Proof.
  intro Hab.
  assert (Hf : (Qfloor (a + (1 # 2)) <= Qfloor (b + (1 # 2)))%Z)
    by (apply Qfloor_resp_le; lra).
  destruct (Qfloor_bounds (a + (1 # 2))) as [Ha1 Ha2].
  destruct (Qfloor_bounds (b + (1 # 2))) as [Hb1 Hb2].
  destruct (rne_cases a) as [[-> Ha] | [-> Ha]];
    destruct (rne_cases b) as [[-> Hb] | [-> [Hb Ob]]]; try lia.
  destruct (Z.eq_dec (Qfloor (a + (1 # 2))) (Qfloor (b + (1 # 2)))) as [E | E]; [ | lia].
  exfalso. apply Ha. rewrite E. split; [ | exact Ob].
  rewrite E in Ha1. lra.
Qed.

Lemma rne_Z n : rne (inject_Z n) = n.
Proof.
  destruct (Qfloor_bounds (inject_Z n + (1 # 2))) as [H1 H2].
  set (f := Qfloor (inject_Z n + (1 # 2))) in *.
  assert (Hfn : f = n).
  { assert (H : inject_Z f < inject_Z (n + 1))
      by (rewrite inject_Z_plus; change (inject_Z 1) with 1; lra).
    assert (H0 : inject_Z n < inject_Z (f + 1))
      by (rewrite inject_Z_plus; change (inject_Z 1) with 1; lra).
    rewrite <- Zlt_Qlt in H, H0. lia. }
  destruct (rne_cases (inject_Z n)) as [[-> _] | [_ [H _]]]; [exact Hfn | ].
  fold f in H. rewrite Hfn in H. lra.
Qed.

Lemma rne_Qeq a b : a == b -> rne a = rne b.
Proof.
  intro H. apply Z.le_antisymm; apply rne_mono; lra.
Qed.

Lemma rne_nonneg a : 0 <= a -> (0 <= rne a)%Z.
Proof. intro H. rewrite <- (rne_Z 0). now apply rne_mono. Qed.

(** ** Rounding a positive rational *)

Lemma cexp_le fmt a b : 0 < a -> a <= b -> (cexp fmt a <= cexp fmt b)%Z.
Proof. intros Ha Hab. unfold cexp. assert (H := ilog2_le a b Ha Hab). lia. Qed.

Lemma cexp_Qeq fmt a b : 0 < a -> a == b -> cexp fmt a = cexp fmt b.
Proof. intros Ha Hab. unfold cexp. now rewrite (ilog2_Qeq a b). Qed.

Lemma rnd_at_mono e a b : a <= b -> rnd_at e a <= rnd_at e b.
Proof.
  intro Hab. unfold rnd_at.
  assert (H := pow2_pos e). assert (H' := pow2_pos (- e)).
  assert (Hm : (rne (a * pow2 (- e)) <= rne (b * pow2 (- e)))%Z).
  { apply rne_mono. nra. }
  rewrite Zle_Qle in Hm. nra.
Qed.

Lemma rnd_at_exact e n k : (e <= k)%Z ->
  rnd_at e (inject_Z n * pow2 k) == inject_Z n * pow2 k.
Proof.
  intro Hek. unfold rnd_at.
  assert (Hk : pow2 k == inject_Z (2 ^ (k - e)) * pow2 e).
  { rewrite <- pow2_nat by lia. rewrite <- pow2_add. now replace (k - e + e)%Z with k by lia. }
  assert (Hs : inject_Z n * pow2 k * pow2 (- e) == inject_Z (n * 2 ^ (k - e))).
  { rewrite inject_Z_mult, Hk.
    assert (H := pow2_cancel e). 
    transitivity (inject_Z n * inject_Z (2 ^ (k - e)) * (pow2 (- e) * pow2 e)); [ring | ].
    rewrite H. ring. }
  rewrite (rne_Qeq _ _ Hs), rne_Z, inject_Z_mult, Hk. ring.
Qed.

Lemma rnd_at_Qeq e a b : a == b -> rnd_at e a == rnd_at e b.
Proof.
  intro H. unfold rnd_at. rewrite (rne_Qeq (a * pow2 (- e)) (b * pow2 (- e))).
  - reflexivity.
  - now rewrite H.
Qed.

Lemma rnd_at_pow2 e k : (e <= k)%Z -> rnd_at e (pow2 k) == pow2 k.
Proof.
  intro H. rewrite (rnd_at_Qeq e (pow2 k) (inject_Z 1 * pow2 k)).
  - rewrite (rnd_at_exact e 1 k H). change (inject_Z 1) with 1. ring.
  - change (inject_Z 1) with 1. ring.
Qed.

Lemma rnd_abs_at fmt a : rnd_abs fmt a = rnd_at (cexp fmt a) a.
Proof. reflexivity. Qed.

Lemma rnd_abs_nonneg fmt a : 0 <= a -> 0 <= rnd_abs fmt a.
Proof.
  intro Ha. unfold rnd_abs.
  assert (H := pow2_pos (cexp fmt a)). assert (H' := pow2_pos (- cexp fmt a)).
  assert (Hm : (0 <= rne (a * pow2 (- cexp fmt a)))%Z) by (apply rne_nonneg; nra).
  rewrite Zle_Qle in Hm. change (inject_Z 0) with 0 in Hm. nra.
Qed.

(** The rounded value does not pass the next power of two. *)
Lemma rnd_abs_le_pow2 fmt a k :
  wf fmt -> 0 < a -> a <= pow2 k -> (emin fmt <= k)%Z -> rnd_abs fmt a <= pow2 k.
Proof.
  intros Hwf Ha Hk Hmin.
  assert (Hc : (cexp fmt a <= k)%Z).
  { destruct (Qlt_le_dec a (pow2 k)) as [Hlt | Hge].
    - unfold cexp. assert (H := ilog2_lt_pow2 a k Ha Hlt). unfold wf in Hwf. lia.
    - assert (Hil : ilog2 a = k).
      { apply ilog2_unique; [lra | ]. assert (H := pow2_lt k (k + 1) ltac:(lia)). lra. }
      unfold cexp, wf in *. lia. }
  rewrite rnd_abs_at.
  assert (H := rnd_at_pow2 (cexp fmt a) k Hc).
  assert (H1 := rnd_at_mono (cexp fmt a) a (pow2 k) Hk). lra.
Qed.

Lemma rnd_abs_Qeq fmt a b : 0 < a -> a == b -> rnd_abs fmt a == rnd_abs fmt b.
Proof.
  intros Ha Hab. rewrite !rnd_abs_at, (cexp_Qeq fmt a b Ha Hab).
  now apply rnd_at_Qeq.
Qed.

(** Rounding is monotone: the exponent of the last bit grows with the
    number, and a power of two is a number of the format. *)
Lemma rnd_abs_mono fmt a b : wf fmt -> 0 < a -> a <= b -> rnd_abs fmt a <= rnd_abs fmt b.
Proof.
  intros Hwf Ha Hab.
  assert (Hb : 0 < b) by lra.
  assert (Hc := cexp_le fmt a b Ha Hab).
  destruct (Z.eq_dec (cexp fmt a) (cexp fmt b)) as [E | E].
  - rewrite !rnd_abs_at, E. now apply rnd_at_mono.
  - assert (Hlt : (cexp fmt a < cexp fmt b)%Z) by lia.
    set (kb := ilog2 b).
    assert (Hcb : cexp fmt b = (kb - (prec fmt - 1))%Z).
    { unfold cexp in *. fold kb. fold kb in Hlt. lia. }
    assert (Hka : (ilog2 a < kb)%Z) by (unfold cexp in *; fold kb in Hlt; lia).
    destruct (ilog2_spec a Ha) as [_ Ha2].
    destruct (ilog2_spec b Hb) as [Hb1 _]. fold kb in Hb1.
    assert (Hak : a <= pow2 kb).
    { assert (H := pow2_le (ilog2 a + 1) kb ltac:(lia)). lra. }
    assert (Hmin : (emin fmt <= kb)%Z) by (unfold cexp, wf in *; lia).
    assert (H1 := rnd_abs_le_pow2 fmt a kb Hwf Ha Hak Hmin).
    assert (Hckb : (cexp fmt b <= kb)%Z) by (unfold wf in *; lia).
    assert (H2 := rnd_at_pow2 (cexp fmt b) kb Hckb).
    assert (H3 := rnd_at_mono (cexp fmt b) (pow2 kb) b Hb1).
    rewrite (rnd_abs_at fmt b). lra.
Qed.

Lemma rnd_abs_exact fmt v n e :
  0 < v -> v == inject_Z n * pow2 e -> (cexp fmt v <= e)%Z -> rnd_abs fmt v == v.
Proof.
  intros Hv Hve Hc. rewrite rnd_abs_at.
  rewrite (rnd_at_Qeq _ _ _ Hve), (rnd_at_exact _ n e Hc). now symmetry.
Qed.

Lemma rne_small a : 0 <= a -> a < 1 # 2 -> rne a = 0%Z.
Proof.
  intros H0 H1.
  destruct (Qfloor_bounds (a + (1 # 2))) as [F1 F2].
  set (f := Qfloor (a + (1 # 2))) in *.
  assert (Hf : f = 0%Z).
  { assert (H : inject_Z f < inject_Z 1) by (change (inject_Z 1) with 1; lra).
    assert (H' : inject_Z (-1) < inject_Z f) by (change (inject_Z (-1)) with (-1); lra).
    rewrite <- Zlt_Qlt in H, H'. lia. }
  destruct (rne_cases a) as [[-> _] | [_ [H _]]]; [exact Hf | ].
  fold f in H. rewrite Hf in H. change (inject_Z 0) with 0 in H. lra.
Qed.

(** A number of a format is a number of every format with at least its
    precision and at most its least exponent. *)
Lemma rnd_abs_nest f g a :
  wf f -> wf g -> subformat f g -> 0 < a -> 0 < rnd_abs f a ->
  rnd_abs g (rnd_abs f a) == rnd_abs f a.
Proof.
  intros Hf Hg [Hp He] Ha Hv.
  set (k := ilog2 a). set (c := cexp f a). set (v := rnd_abs f a) in *.
  destruct (ilog2_spec a Ha) as [Hk1 Hk2]. fold k in Hk1, Hk2.
  assert (Hmin : (emin f <= k + 1)%Z).
  { destruct (Z_le_gt_dec (emin f) (k + 1)) as [H | H]; [exact H | exfalso].
    assert (Hc : c = emin f) by (unfold c, cexp; fold k; unfold wf in Hf; lia).
    assert (Hs : a * pow2 (- c) < 1 # 2).
    { assert (H1 := pow2_le (k + 1) (emin f - 1) ltac:(lia)).
      assert (H2 : pow2 (emin f - 1) * pow2 (- c) == 1 # 2).
      { rewrite <- pow2_add, Hc. now replace (emin f - 1 + - emin f)%Z with (-1)%Z by lia. }
      assert (H3 := pow2_pos (- c)). nra. }
    assert (H0 : 0 <= a * pow2 (- c)) by (assert (H3 := pow2_pos (- c)); nra).
    assert (Hr := rne_small _ H0 Hs).
    unfold v, rnd_abs in Hv. fold c in Hv. rewrite Hr in Hv.
    change (inject_Z 0) with 0 in Hv. lra. }
  assert (Hvk : v <= pow2 (k + 1)).
  { apply rnd_abs_le_pow2; [exact Hf | exact Ha | lra | exact Hmin]. }
  destruct (Qlt_le_dec v (pow2 (k + 1))) as [Hlt | Hge].
  - apply (rnd_abs_exact g v (rne (a * pow2 (- c))) c Hv); [reflexivity | ].
    assert (H := ilog2_lt_pow2 v (k + 1) Hv Hlt).
    unfold cexp, c, cexp. fold k. unfold wf in *. lia.
  - apply (rnd_abs_exact g v 1 (k + 1) Hv).
    + change (inject_Z 1) with 1. lra.
    + assert (Hil : ilog2 v = (k + 1)%Z).
      { apply ilog2_unique; [lra | ].
        assert (H := pow2_lt (k + 1) (k + 1 + 1) ltac:(lia)). lra. }
      unfold cexp. rewrite Hil. unfold wf in *. lia.
Qed.

(** ** Rounding any rational *)

Lemma subformat_refl f : subformat f f.
Proof. split; lia. Qed.

Lemma rnd_pos fmt q : 0 < q -> rnd fmt q = rnd_abs fmt q.
Proof. intro H. unfold rnd. rewrite Qgt_alt in H. now rewrite H. Qed.

Lemma rnd_neg fmt q : q < 0 -> rnd fmt q = - rnd_abs fmt (- q).
Proof. intro H. unfold rnd. rewrite Qlt_alt in H. now rewrite H. Qed.

Lemma rnd_zero fmt q : q == 0 -> rnd fmt q = 0.
Proof. intro H. unfold rnd. rewrite Qeq_alt in H. now rewrite H. Qed.

Lemma Q_sign_cases q : q < 0 \/ q == 0 \/ 0 < q.
Proof. destruct (Q_dec q 0) as [[H | H] | H]; auto. Qed.

Lemma rnd_nonneg fmt q : 0 <= q -> 0 <= rnd fmt q.
Proof.
  intro H. destruct (Q_sign_cases q) as [H1 | [H1 | H1]]; [lra | | ].
  - rewrite rnd_zero by exact H1. lra.
  - rewrite rnd_pos by exact H1. apply rnd_abs_nonneg. lra.
Qed.

Lemma rnd_nonpos fmt q : q <= 0 -> rnd fmt q <= 0.
Proof.
  intro H. destruct (Q_sign_cases q) as [H1 | [H1 | H1]]; [ | | lra].
  - rewrite rnd_neg by exact H1.
    assert (0 <= rnd_abs fmt (- q)) by (apply rnd_abs_nonneg; lra). lra.
  - rewrite rnd_zero by exact H1. lra.
Qed.

Lemma rnd_mono fmt a b : wf fmt -> a <= b -> rnd fmt a <= rnd fmt b.
Proof.
  intros Hwf Hab.
  destruct (Q_sign_cases a) as [Ha | [Ha | Ha]];
    destruct (Q_sign_cases b) as [Hb | [Hb | Hb]]; try lra.
  - rewrite !rnd_neg by assumption.
    assert (rnd_abs fmt (- b) <= rnd_abs fmt (- a)) by (apply rnd_abs_mono; [exact Hwf | lra | lra]).
    lra.
  - assert (H1 := rnd_nonpos fmt a). assert (H2 := rnd_nonneg fmt b). lra.
  - assert (H1 := rnd_nonpos fmt a). assert (H2 := rnd_nonneg fmt b). lra.
  - assert (H1 := rnd_nonpos fmt a). assert (H2 := rnd_nonneg fmt b). lra.
  - assert (H1 := rnd_nonpos fmt a). assert (H2 := rnd_nonneg fmt b). lra.
  - rewrite !rnd_pos by assumption. now apply rnd_abs_mono.
Qed.

Lemma rnd_Qeq fmt a b : a == b -> rnd fmt a == rnd fmt b.
Proof.
  intro H. destruct (Q_sign_cases a) as [Ha | [Ha | Ha]].
  - rewrite !rnd_neg by lra. apply Qopp_comp. apply rnd_abs_Qeq; lra.
  - rewrite !rnd_zero by lra. reflexivity.
  - rewrite !rnd_pos by lra. apply rnd_abs_Qeq; lra.
Qed.

Lemma rnd_opp fmt a : rnd fmt (- a) == - rnd fmt a.
Proof.
  destruct (Q_sign_cases a) as [Ha | [Ha | Ha]].
  - rewrite (rnd_neg fmt a Ha), (rnd_pos fmt (- a)) by lra. ring.
  - rewrite !rnd_zero by lra. reflexivity.
  - rewrite (rnd_pos fmt a Ha), (rnd_neg fmt (- a)) by lra.
    apply Qopp_comp. apply rnd_abs_Qeq; [lra | ring].
Qed.

Lemma rnd_nest f g a :
  wf f -> wf g -> subformat f g -> rnd g (rnd f a) == rnd f a.
Proof.
  intros Hf Hg Hs.
  destruct (Q_sign_cases a) as [Ha | [Ha | Ha]].
  - rewrite (rnd_neg f a Ha).
    assert (H0 : 0 <= rnd_abs f (- a)) by (apply rnd_abs_nonneg; lra).
    destruct (Qlt_le_dec 0 (rnd_abs f (- a))) as [Hv | Hv].
    + rewrite rnd_opp, rnd_pos by exact Hv.
      apply Qopp_comp. apply rnd_abs_nest; try assumption. lra.
    + rewrite rnd_zero by lra. lra.
  - rewrite (rnd_zero f a Ha). now rewrite rnd_zero.
  - rewrite (rnd_pos f a Ha).
    assert (H0 : 0 <= rnd_abs f a) by (apply rnd_abs_nonneg; lra).
    destruct (Qlt_le_dec 0 (rnd_abs f a)) as [Hv | Hv].
    + rewrite rnd_pos by exact Hv. now apply rnd_abs_nest.
    + rewrite rnd_zero by lra. lra.
Qed.

(** ** Single and double precision *)

Lemma wf32 : wf binary32.
Proof. unfold wf. simpl. lia. Qed.

Lemma wf64 : wf binary64.
Proof. unfold wf. simpl. lia. Qed.

Lemma sub_32_64 : subformat binary32 binary64.
Proof. split; simpl; lia. Qed.

(** * Floating-point numbers *)

(** ** The comparisons *)

Lemma Qlt_bool_iff (a b : Q) : Qlt_bool a b = true <-> a < b.
Proof.
  unfold Qlt_bool. rewrite negb_true_iff.
  destruct (Qle_bool b a) eqn:E.
  - apply Qle_bool_iff in E. split; [discriminate | intro H; exfalso; lra].
  - split; [intros _ | reflexivity].
    destruct (Qlt_le_dec a b) as [H | H]; [exact H | ].
    apply Qle_bool_iff in H. congruence.
Qed.

Lemma Qcompare_le a b : (match a ?= b with Lt | Eq => true | Gt => false end) = true <-> a <= b.
Proof.
  destruct (a ?= b) eqn:E.
  - apply Qeq_alt in E. split; [intros _; lra | reflexivity].
  - apply Qlt_alt in E. split; [intros _; lra | reflexivity].
  - apply Qgt_alt in E. split; [discriminate | intro; lra].
Qed.

Lemma fcompare_finite x y :
  is_finite x = true -> is_finite y = true ->
  fcompare x y = Some (fval x ?= fval y).
Proof. destruct x; try discriminate; destruct y; try discriminate; reflexivity. Qed.

Lemma fle_finite x y :
  is_finite x = true -> is_finite y = true ->
  (fle x y = true <-> fval x <= fval y).
Proof.
  intros Hx Hy. unfold fle. rewrite (fcompare_finite x y Hx Hy).
  destruct (fval x ?= fval y) eqn:E;
    [apply Qeq_alt in E | apply Qlt_alt in E | apply Qgt_alt in E];
    split; intro H; try reflexivity; try discriminate; lra.
Qed.

Lemma flt_finite x y :
  is_finite x = true -> is_finite y = true ->
  (flt x y = true <-> fval x < fval y).
Proof.
  intros Hx Hy. unfold flt. rewrite (fcompare_finite x y Hx Hy).
  destruct (fval x ?= fval y) eqn:E;
    [apply Qeq_alt in E | apply Qlt_alt in E | apply Qgt_alt in E];
    split; intro H; try reflexivity; try discriminate; lra.
Qed.

Lemma feq_finite x y :
  is_finite x = true -> is_finite y = true ->
  (feq x y = true <-> fval x == fval y).
Proof.
  intros Hx Hy. unfold feq. rewrite (fcompare_finite x y Hx Hy).
  destruct (fval x ?= fval y) eqn:E;
    [apply Qeq_alt in E | apply Qlt_alt in E | apply Qgt_alt in E];
    split; intro H; try reflexivity; try discriminate; lra.
Qed.

Lemma fle_not_nan x y : fle x y = true -> is_nan x = false /\ is_nan y = false.
Proof. destruct x, y; simpl; intro H; try discriminate; auto. Qed.

Lemma fle_refl x : is_nan x = false -> fle x x = true.
Proof.
  destruct x; intro H; try discriminate; try reflexivity.
  apply fle_finite; try reflexivity. lra.
Qed.

Lemma fle_trans x y z : fle x y = true -> fle y z = true -> fle x z = true.
Proof.
  intros Hxy Hyz.
  destruct x; try discriminate; destruct y; try discriminate;
    destruct z; try discriminate; try reflexivity;
    try (apply fle_finite in Hxy; [ | reflexivity | reflexivity]);
    try (apply fle_finite in Hyz; [ | reflexivity | reflexivity]);
    try (apply fle_finite; [reflexivity | reflexivity | ]); simpl in *; lra.
Qed.

Lemma flt_fle x y : flt x y = true -> fle x y = true.
Proof. unfold flt, fle. destruct (fcompare x y) as [[ | | ] | ]; congruence. Qed.

Lemma fcompare_antisym x y :
  fcompare y x = match fcompare x y with Some c => Some (CompOpp c) | None => None end.
Proof.
  destruct x, y; simpl; try reflexivity; rewrite Qcompare_antisym; reflexivity.
Qed.

Lemma flt_false_fle x y :
  is_nan x = false -> is_nan y = false -> flt x y = false -> fle y x = true.
Proof.
  intros Hx Hy. unfold flt, fle. rewrite (fcompare_antisym x y).
  destruct x, y; try discriminate; simpl; try (intros; reflexivity); try discriminate;
    destruct (_ ?= _); simpl; congruence.
Qed.

Lemma flt_not_fle x y : flt x y = true -> fle y x = false.
Proof.
  unfold flt, fle. rewrite (fcompare_antisym x y).
  destruct (fcompare x y) as [[ | | ] | ]; simpl; congruence.
Qed.

Lemma fle_flt_false x y : fle y x = true -> flt x y = false.
Proof.
  intro H. destruct (flt x y) eqn:E; [ | reflexivity].
  apply flt_not_fle in E. congruence.
Qed.

Lemma feq_fle x y : feq x y = true -> fle x y = true /\ fle y x = true.
Proof.
  unfold feq, fle. rewrite (fcompare_antisym x y).
  destruct (fcompare x y) as [[ | | ] | ]; simpl; try discriminate. auto.
Qed.

Lemma fle_antisym x y : fle x y = true -> fle y x = true -> feq x y = true.
Proof.
  unfold feq, fle. rewrite (fcompare_antisym x y).
  destruct (fcompare x y) as [[ | | ] | ]; simpl; congruence.
Qed.

(** ** What [round] returns *)

Lemma round_spec fmt q :
  (round fmt q = PInf /\ pow2 (emax fmt) <= rnd fmt q) \/
  (round fmt q = NInf /\ rnd fmt q <= - pow2 (emax fmt)) \/
  (is_finite (round fmt q) = true /\ fval (round fmt q) == rnd fmt q /\
   - pow2 (emax fmt) < rnd fmt q /\ rnd fmt q < pow2 (emax fmt)).
Proof.
  assert (Hp := pow2_pos (emax fmt)).
  unfold round, rnd. destruct (q ?= 0) eqn:E.
  - right. right. cbn [is_finite fval]. repeat split; lra.
  - apply Qlt_alt in E.
    assert (H0 : 0 <= rnd_abs fmt (- q)) by (apply rnd_abs_nonneg; lra).
    destruct (Qle_bool (pow2 (emax fmt)) (rnd_abs fmt (- q))) eqn:O.
    + apply Qle_bool_iff in O. right. left. split; [reflexivity | lra].
    + assert (rnd_abs fmt (- q) < pow2 (emax fmt)).
      { apply Qnot_le_lt. intro H. apply Qle_bool_iff in H. congruence. }
      right. right.
      destruct (Qeq_bool (rnd_abs fmt (- q)) 0) eqn:Z.
      * apply Qeq_bool_eq in Z. cbn [is_finite fval]. repeat split; lra.
      * cbn [is_finite fval]. assert (Hr := Qred_correct (- rnd_abs fmt (- q))).
        repeat split; lra.
  - apply Qgt_alt in E.
    assert (H0 : 0 <= rnd_abs fmt q) by (apply rnd_abs_nonneg; lra).
    destruct (Qle_bool (pow2 (emax fmt)) (rnd_abs fmt q)) eqn:O.
    + apply Qle_bool_iff in O. left. split; [reflexivity | lra].
    + assert (rnd_abs fmt q < pow2 (emax fmt)).
      { apply Qnot_le_lt. intro H. apply Qle_bool_iff in H. congruence. }
      right. right. cbn [is_finite fval]. assert (Hr := Qred_correct (rnd_abs fmt q)).
      repeat split; lra.
Qed.

Lemma round_not_nan fmt q : is_nan (round fmt q) = false.
Proof.
  destruct (round_spec fmt q) as [[-> _] | [[-> _] | [H _]]]; try reflexivity.
  now destruct (round fmt q).
Qed.

Lemma round_mono fmt a b : wf fmt -> a <= b -> fle (round fmt a) (round fmt b) = true.
Proof.
  intros Hwf Hab. assert (Hm := rnd_mono fmt a b Hwf Hab).
  assert (Hp := pow2_pos (emax fmt)).
  destruct (round_spec fmt a) as [[Ea Ha] | [[Ea Ha] | (Fa & Va & La & Ua)]];
    destruct (round_spec fmt b) as [[Eb Hb] | [[Eb Hb] | (Fb & Vb & Lb & Ub)]];
    try rewrite Ea; try rewrite Eb; try reflexivity; try lra.
  - now destruct (round fmt b).
  - now destruct (round fmt a).
  - apply fle_finite; try assumption. lra.
Qed.

(** A number of the format is rounded to itself. *)
Lemma round_fixed fmt x :
  is_finite x = true -> rnd fmt (fval x) == fval x ->
  fval x < pow2 (emax fmt) -> - pow2 (emax fmt) < fval x ->
  feq (round fmt (fval x)) x = true.
Proof.
  intros Hx Hr Hu Hl.
  destruct (round_spec fmt (fval x)) as [[_ H] | [[_ H] | (F & V & _)]]; try lra.
  apply feq_finite; try assumption. lra.
Qed.

(** ** Conversion to a format *)

Lemma feq_refl x : is_nan x = false -> feq x x = true.
Proof. intro H. apply fle_antisym; now apply fle_refl. Qed.

Lemma feq_sym x y : feq x y = true -> feq y x = true.
Proof. intro H. apply feq_fle in H as [H1 H2]. now apply fle_antisym. Qed.

Lemma feq_trans x y z : feq x y = true -> feq y z = true -> feq x z = true.
Proof.
  intros H1 H2. apply feq_fle in H1 as [A B]. apply feq_fle in H2 as [C D].
  apply fle_antisym; eapply fle_trans; eassumption.
Qed.

Lemma feq_is_finite x y : feq x y = true -> is_finite y = true -> is_finite x = true.
Proof. destruct x, y; simpl; try discriminate; auto. Qed.

Lemma flt_irrefl x : flt x x = false.
Proof.
  destruct (flt x x) eqn:E; [ | reflexivity].
  assert (H := flt_not_fle x x E). apply flt_fle in E. congruence.
Qed.

Lemma fcast_finite_feq fmt x :
  is_finite x = true -> feq (fcast fmt x) (round fmt (fval x)) = true.
Proof.
  destruct x; try discriminate; intros _.
  - reflexivity.
  - simpl. apply feq_refl. apply round_not_nan.
Qed.

Lemma fcast_not_nan fmt x : is_nan x = false -> is_nan (fcast fmt x) = false.
Proof. destruct x; simpl; try congruence. intros _. apply round_not_nan. Qed.

Lemma fcast_mono fmt x y :
  wf fmt -> fle x y = true -> fle (fcast fmt x) (fcast fmt y) = true.
Proof.
  intros Hwf H.
  destruct (fle_not_nan x y H) as [Nx Ny].
  assert (Cx := fcast_not_nan fmt x Nx). assert (Cy := fcast_not_nan fmt y Ny).
  destruct (is_finite x) eqn:Fx; destruct (is_finite y) eqn:Fy.
  - apply (fle_finite x y Fx Fy) in H.
    assert (H1 := fcast_finite_feq fmt x Fx). assert (H2 := fcast_finite_feq fmt y Fy).
    apply feq_fle in H1 as [A _]. apply feq_fle in H2 as [_ B].
    eapply fle_trans; [exact A | ]. eapply fle_trans; [ | exact B].
    now apply round_mono.
  - destruct y; try discriminate.
    + simpl. now destruct (fcast fmt x).
    + destruct x; discriminate.
  - destruct x; try discriminate.
    + destruct y; discriminate.
    + simpl. now destruct (fcast fmt y).
  - destruct x, y; try discriminate; reflexivity.
Qed.

Lemma fcast_flt fmt x y :
  wf fmt -> flt x y = false -> flt (fcast fmt x) (fcast fmt y) = false.
Proof.
  intros Hwf H.
  destruct (is_nan x) eqn:Nx; [destruct x; try discriminate; reflexivity | ].
  destruct (is_nan y) eqn:Ny.
  { destruct y; try discriminate. simpl. now destruct (fcast fmt x). }
  apply fle_flt_false. apply fcast_mono; [exact Hwf | ].
  now apply flt_false_fle.
Qed.

Lemma fcast_feq fmt x y :
  wf fmt -> feq x y = true -> feq (fcast fmt x) (fcast fmt y) = true.
Proof.
  intros Hwf H. apply feq_fle in H as [A B].
  apply fle_antisym; now apply fcast_mono.
Qed.

(** A finite result of a conversion is converted to itself. *)
Lemma fcast_idem fmt x :
  wf fmt -> is_finite (fcast fmt x) = true ->
  feq (fcast fmt (fcast fmt x)) (fcast fmt x) = true.
Proof.
  intros Hwf H. destruct x; try discriminate; try reflexivity.
  cbn [fcast] in *.
  destruct (round_spec fmt q) as [[E _] | [[E _] | (F & V & L & U)]];
    try (rewrite E in H; discriminate).
  destruct (round fmt q) as [ | | | | q'] eqn:R; try discriminate; [reflexivity | ].
  cbn [fcast fval] in *.
  assert (Hq' : rnd fmt q' == q').
  { rewrite (rnd_Qeq fmt q' (rnd fmt q) V), V.
    apply rnd_nest; [exact Hwf | exact Hwf | apply subformat_refl]. }
  apply (round_fixed fmt (Num q')); [reflexivity | exact Hq' | cbn [fval]; lra | cbn [fval]; lra].
Qed.

(** A finite number that its conversion to [f] leaves as it is, is a number
    of every format [g] that contains [f]. *)
Lemma format_nest f g x :
  wf f -> wf g -> subformat f g ->
  is_finite x = true -> feq (fcast f x) x = true ->
  rnd g (fval x) == fval x.
Proof.
  intros Hf Hg Hs Fx H. destruct x; try discriminate.
  - cbn [fval]. now rewrite rnd_zero.
  - cbn [fcast fval] in *.
    destruct (round_spec f q) as [[E _] | [[E _] | (F & V & L & U)]];
      try (rewrite E in H; discriminate).
    apply (feq_finite _ (Num q) F eq_refl) in H. cbn [fval] in H.
    assert (Hq : rnd f q == q) by lra.
    transitivity (rnd g (rnd f q)); [apply rnd_Qeq; lra | ].
    rewrite (rnd_nest f g q Hf Hg Hs). exact Hq.
Qed.

(** ** Addition and multiplication *)

Lemma round_0 fmt : round fmt 0 = Num 0.
Proof. reflexivity. Qed.

Lemma is_zero_spec x : is_zero x = true -> is_finite x = true /\ fval x == 0.
Proof.
  destruct x; simpl; try discriminate.
  - intros _. split; [reflexivity | lra].
  - intro H. apply Qeq_bool_eq in H. auto.
Qed.

Lemma is_zero_false x : is_finite x = true -> is_zero x = false -> ~ fval x == 0.
Proof.
  destruct x; simpl; try discriminate. intros _ H E.
  apply Qeq_eq_bool in E. congruence.
Qed.

Lemma zero_feq s : feq (zero s) (Num 0) = true.
Proof. now destruct s. Qed.

Lemma zero_fle_l s : fle (zero s) (Num 0) = true.
Proof. now destruct s. Qed.


Lemma fmul_finite fmt x y :
  is_finite x = true -> is_finite y = true ->
  fmul fmt x y =
  if is_zero x || is_zero y then zero (xorb (sign_bit x) (sign_bit y))
  else round fmt (fval x * fval y).
Proof. destruct x; try discriminate; destruct y; try discriminate; reflexivity. Qed.

Lemma fadd_finite fmt x y :
  is_finite x = true -> is_finite y = true ->
  fadd fmt x y =
  if is_zero x && is_zero y then zero (sign_bit x && sign_bit y)
  else if Qeq_bool (fval x + fval y) 0 then Num 0
       else round fmt (fval x + fval y).
Proof. destruct x; try discriminate; destruct y; try discriminate; reflexivity. Qed.

Lemma fmul_nonpos fmt x y :
  wf fmt -> is_finite x = true -> is_finite y = true ->
  fval x * fval y <= 0 -> fle (fmul fmt x y) (Num 0) = true.
Proof.
  intros Hwf Fx Fy H. rewrite (fmul_finite fmt x y Fx Fy).
  destruct (is_zero x || is_zero y).
  - apply zero_fle_l.
  - rewrite <- (round_0 fmt). now apply round_mono.
Qed.


Lemma fle_0_finite p :
  fle p (Num 0) = true -> p = NInf \/ (is_finite p = true /\ fval p <= 0).
Proof.
  intro H. destruct p; try discriminate; auto; right; split; try reflexivity.
  - simpl. lra.
  - apply (fle_finite (Num q) (Num 0) eq_refl eq_refl) in H. exact H.
Qed.


(** Adding a number that is not positive to a number of the format does not
    give more. *)
Lemma fadd_le fmt a p :
  wf fmt -> is_finite a = true -> rnd fmt (fval a) == fval a ->
  fval a < pow2 (emax fmt) ->
  fle p (Num 0) = true -> fle (fadd fmt a p) a = true.
Proof.
  intros Hwf Fa Ha Ua Hp.
  destruct (fle_0_finite p Hp) as [-> | [Fp Vp]].
  - destruct a; try discriminate; reflexivity.
  - rewrite (fadd_finite fmt a p Fa Fp).
    destruct (is_zero a && is_zero p) eqn:Z.
    + apply andb_true_iff in Z as [Za _]. apply is_zero_spec in Za as [_ Za].
      destruct (sign_bit a && sign_bit p); apply fle_finite; try reflexivity;
        try exact Fa; simpl; lra.
    + destruct (Qeq_bool (fval a + fval p) 0) eqn:E.
      * apply Qeq_bool_eq in E. apply fle_finite; [reflexivity | exact Fa | ].
        simpl. lra.
      * assert (Hm := rnd_mono fmt (fval a + fval p) (fval a) Hwf ltac:(lra)).
        destruct (round_spec fmt (fval a + fval p))
          as [[_ H] | [[-> _] | (F & V & _)]].
        -- lra.
        -- destruct a; try discriminate; reflexivity.
        -- apply fle_finite; try assumption. lra.
Qed.


(** ** The greater of two numbers *)

Lemma std_max_lub a b c :
  fle a c = true -> fle b c = true -> fle (std_max a b) c = true.
Proof. intros Ha Hb. unfold std_max. now destruct (flt a b). Qed.

Lemma std_max_ge_r a b :
  is_nan a = false -> is_nan b = false -> fle b (std_max a b) = true.
Proof.
  intros Na Nb. unfold std_max. destruct (flt a b) eqn:E.
  - now apply fle_refl.
  - now apply flt_false_fle.
Qed.

Lemma std_max_not_below a b : flt (std_max a b) b = false.
Proof.
  unfold std_max. destruct (flt a b) eqn:E; [apply flt_irrefl | exact E].
Qed.

(** ** Single-precision numbers among the doubles *)

Lemma pow2_128_1024 : pow2 (emax binary32) <= pow2 (emax binary64).
Proof. apply pow2_le. simpl. lia. Qed.

Lemma is_float32_spec x :
  is_float32 x = true ->
  is_finite x = true /\ feq (fcast binary32 x) x = true /\
  rnd binary64 (fval x) == fval x /\
  - pow2 (emax binary64) < fval x /\ fval x < pow2 (emax binary64).
Proof.
  intro H. apply andb_true_iff in H as [F E]. unfold static_cast_float in E.
  split; [exact F | ]. split; [exact E | ].
  split; [exact (format_nest binary32 binary64 x wf32 wf64 sub_32_64 F E) | ].
  assert (Hb := pow2_128_1024).
  destruct x; try discriminate.
  - cbn [fval]. assert (Hp := pow2_pos (emax binary64)). lra.
  - cbn [fcast fval] in *.
    destruct (round_spec binary32 q) as [[R _] | [[R _] | (Fr & V & L & U)]];
      try (rewrite R in E; discriminate).
    apply (feq_finite _ (Num q) Fr eq_refl) in E. cbn [fval] in E. lra.
Qed.

Lemma fcast_is_float32 x :
  is_finite (fcast binary32 x) = true -> is_float32 (fcast binary32 x) = true.
Proof.
  intro H. unfold is_float32, static_cast_float. rewrite H. simpl.
  now apply fcast_idem; [apply wf32 | ].
Qed.

(** ** The arithmetic of a ramp step *)

Lemma finite_not_nan x : is_finite x = true -> is_nan x = false.
Proof. now destruct x. Qed.

Lemma nonneg_finite_spec x :
  nonneg_finite x = true -> is_finite x = true /\ 0 <= fval x.
Proof.
  intro H. apply andb_true_iff in H as [F L]. split; [exact F | ].
  now apply (fle_finite (Num 0) x eq_refl F) in L.
Qed.

Lemma nonpos_finite_spec x :
  is_finite x = true -> fle x (Num 0) = true -> fval x <= 0.
Proof. intros F L. now apply (fle_finite x (Num 0) F eq_refl) in L. Qed.

Lemma feq_fle_l x y : feq x y = true -> fle x y = true.
Proof. intro H. now destruct (feq_fle x y H). Qed.

Lemma feq_fle_r x y : feq x y = true -> fle y x = true.
Proof. intro H. now destruct (feq_fle x y H). Qed.

Lemma static_cast_float_0 : static_cast_float (Num 0) = Num 0.
Proof. reflexivity. Qed.

Lemma is_float32_cast a : is_float32 a = true -> feq (static_cast_float a) a = true.
Proof. intro H. now apply andb_true_iff in H as [_ E]. Qed.

Lemma is_float32_finite a : is_float32 a = true -> is_finite a = true.
Proof. intro H. now apply andb_true_iff in H as [F _]. Qed.

(** A finite output of [static_cast<float>] is a single-precision number. *)
Lemma static_cast_float_is_float32 x :
  is_finite (static_cast_float x) = true -> is_float32 (static_cast_float x) = true.
Proof. apply fcast_is_float32. Qed.

Lemma static_cast_float_le x a :
  is_float32 a = true -> fle x a = true -> fle (static_cast_float x) a = true.
Proof.
  intros Ha H. apply (fle_trans _ (static_cast_float a)).
  - now apply fcast_mono; [apply wf32 | ].
  - now apply feq_fle_l, is_float32_cast.
Qed.


(** [a + k * dt] is at most [a] when [k] is not positive and [dt] is not
    negative. *)
Lemma step_down (a k dt : double) :
  is_float32 a = true ->
  is_finite k = true -> fle k (Num 0) = true ->
  nonneg_finite dt = true ->
  fle (dadd a (dmul k dt)) a = true.
Proof.
  intros Ha Fk Lk Hdt.
  destruct (is_float32_spec a Ha) as (Fa & _ & Ra & _ & Ua).
  destruct (nonneg_finite_spec dt Hdt) as [Fdt Ldt].
  assert (Vk := nonpos_finite_spec k Fk Lk).
  apply fadd_le; [apply wf64 | exact Fa | exact Ra | exact Ua | ].
  apply fmul_nonpos; [apply wf64 | exact Fk | exact Fdt | nra].
Qed.


(** What a step of the ramp stores in a field is not below the bound of
    the field, converted to the type of the field. *)
Lemma clamp_step_ge (x t : double) :
  flt (static_cast_float (std_max x t)) (static_cast_float t) = false.
Proof. apply fcast_flt; [apply wf32 | apply std_max_not_below]. Qed.

(** What a step of the ramp stores in a field is at most the previous
    value [a] of the field, when [k] is not positive, [dt] is not negative
    and [a] is not below the bound. *)
Lemma clamp_step_le (a k dt t : double) :
  is_float32 a = true ->
  is_finite k = true -> fle k (Num 0) = true ->
  nonneg_finite dt = true ->
  flt a (static_cast_float t) = false ->
  fle (static_cast_float (std_max (dadd a (dmul k dt)) t)) a = true.
Proof.
  intros Ha Fk Lk Hdt Hb.
  assert (Hx := step_down a k dt Ha Fk Lk Hdt).
  unfold std_max. destruct (flt (dadd a (dmul k dt)) t) eqn:E.
  - apply flt_false_fle; [ | | exact Hb].
    + now apply finite_not_nan, is_float32_finite.
    + apply fcast_not_nan. now apply flt_fle, fle_not_nan in E.
  - now apply static_cast_float_le.
Qed.


(** A field that equals its bound keeps the value of the bound. *)
Lemma hold_step (a k dt t : double) :
  is_float32 a = true ->
  feq a t = true ->
  is_finite k = true -> fle k (Num 0) = true ->
  nonneg_finite dt = true ->
  feq (static_cast_float (std_max (dadd a (dmul k dt)) t)) t = true /\
  is_float32 (static_cast_float (std_max (dadd a (dmul k dt)) t)) = true.
Proof.
  intros Ha Eat Fk Lk Hdt.
  set (out := static_cast_float (std_max (dadd a (dmul k dt)) t)).
  assert (Eta : feq (static_cast_float t) a = true).
  { apply (feq_trans _ (static_cast_float a)).
    - apply fcast_feq; [apply wf32 | now apply feq_sym].
    - now apply is_float32_cast. }
  destruct (feq_fle _ _ Eta) as [Lta Lat].
  assert (H1 : fle out a = true).
  { apply clamp_step_le; try assumption. now apply fle_flt_false. }
  assert (H2 : fle a out = true).
  { apply (fle_trans _ _ _ Lat).
    apply flt_false_fle; [ | | apply clamp_step_ge].
    - now apply fle_not_nan in H1.
    - now apply fle_not_nan in Lta. }
  assert (Eout : feq out a = true) by now apply fle_antisym.
  split; [now apply (feq_trans _ a) | ].
  apply static_cast_float_is_float32.
  apply (feq_is_finite _ _ Eout). now apply is_float32_finite.
Qed.

(** A value that is not below a bound converted to single precision is not
    below the bound itself when the bound is a single-precision number. *)
Lemma not_below_float32 (x t : double) :
  is_float32 t = true ->
  flt x (static_cast_float t) = false -> flt x t = false.
Proof.
  intros Ht H. destruct (is_nan x) eqn:N.
  - destruct x; try discriminate. reflexivity.
  - apply fle_flt_false. apply (fle_trans _ (static_cast_float t)).
    + now apply feq_fle_r, is_float32_cast.
    + apply flt_false_fle; [exact N | | exact H].
      apply fcast_not_nan. now apply finite_not_nan, is_float32_finite.
Qed.

(** ** The model of the numbers against the reference implementation *)

(** Addition, multiplication and division of doubles agree with the
    standard library's specification of IEEE 754 on the sample pairs:
    ordinary numbers, ties, the subnormal range, overflow, the zeros, the
    infinities and NaN. *)
Example agrees_with_SpecFloat_add :
  forallb (sf_agree (SFadd 53 1024) dadd) sf_inputs = true.
Proof. vm_compute. reflexivity. Qed.

Example agrees_with_SpecFloat_mul :
  forallb (sf_agree (SFmul 53 1024) dmul) sf_inputs = true.
Proof. vm_compute. reflexivity. Qed.

Example agrees_with_SpecFloat_div :
  forallb (sf_agree (SFdiv 53 1024) ddiv) sf_inputs = true.
Proof. vm_compute. reflexivity. Qed.

(** So do the comparisons [<] and [==]. *)
Example agrees_with_SpecFloat_compare :
  forallb (fun ab =>
             Bool.eqb (SFltb (fst ab) (snd ab)) (flt (of_spec (fst ab)) (of_spec (snd ab)))
             && Bool.eqb (SFeqb (fst ab) (snd ab)) (feq (of_spec (fst ab)) (of_spec (snd ab))))
          sf_inputs = true.
Proof. vm_compute. reflexivity. Qed.

(** So does the conversion of a double to float. *)
Example agrees_with_SpecFloat_cast :
  forallb (fun x => same_fp (of_spec (sf_cast32 x)) (static_cast_float (of_spec x)))
          (map sf64 sf_samples ++ sf_specials) = true.
Proof. vm_compute. reflexivity. Qed.

(** So does the conversion of a count of nanoseconds to double. *)
Example agrees_with_SpecFloat_of_Z :
  forallb (fun z => same_fp (of_spec (sf64 (z, 0%Z))) (of_Z binary64 z))
          [0; 1; -1; 100000000; 1000000000; 2 ^ 53 + 1; 2 ^ 63 - 1; - 2 ^ 63;
           123456789123456789]%Z = true.
Proof. vm_compute. reflexivity. Qed.

(** The double and the float nearest to 0.1, and the floats nearest to
    -2.7 and -2.6: the first is below -2.7, the second above -2.6. *)
Example d64_tenth : d64 0.1 = Num (3602879701896397 # 36028797018963968).
Proof. vm_compute. reflexivity. Qed.

Example f32_tenth : f32 0.1 = Num (13421773 # 134217728).
Proof. vm_compute. reflexivity. Qed.

Example f32_of_2_7 :
  f32 (-2.7) = Num (-11324621 # 4194304) /\ flt (f32 (-2.7)) (d64 (-2.7)) = true.
Proof. split; vm_compute; reflexivity. Qed.

Example f32_of_2_6 :
  f32 (-2.6) = Num (-5452595 # 2097152) /\ flt (d64 (-2.6)) (f32 (-2.6)) = true.
Proof. split; vm_compute; reflexivity. Qed.

(** The defaults -2.5 and -1.5 are single-precision numbers. *)
Example default_params_are_float32 :
  is_float32 (target_acceleration default_params) = true /\
  is_float32 (target_jerk default_params) = true /\
  target_acceleration default_params = Num (-5 # 2) /\
  target_jerk default_params = Num (-3 # 2).
Proof. repeat split; vm_compute; reflexivity. Qed.

(** * The callbacks, field by field *)

Lemma State_eqb_neq (a b : State) : State_eqb a b = false <-> a <> b.
Proof. destruct a, b; simpl; split; congruence. Qed.

Lemma onControlCommand_ignored (self : Node) (msg : Command) :
  state_of self = OPERATING -> onControlCommand self msg = self.
Proof. intro H. unfold onControlCommand. now rewrite H. Qed.

Lemma onControlCommand_accepted (self : Node) (msg : Command) :
  state_of self <> OPERATING ->
  onControlCommand self msg =
  {| params_ := params_ self;
     status_ := status_ self;
     prev_control_cmd_ := msg;
     lateral_cmd_at_start_of_emergency_stop_ :=
       lateral_cmd_at_start_of_emergency_stop_ self;
     is_prev_control_cmd_subscribed_ := true |}.
Proof.
  intro H. unfold onControlCommand.
  apply State_eqb_neq in H. now rewrite H.
Qed.

Lemma onControlCommand_state (self : Node) (msg : Command) :
  state_of (onControlCommand self msg) = state_of self.
Proof. unfold onControlCommand. now destruct (State_eqb _ _). Qed.

Lemma onControlCommand_params (self : Node) (msg : Command) :
  params_ (onControlCommand self msg) = params_ self.
Proof. unfold onControlCommand. now destruct (State_eqb _ _). Qed.

Lemma onControlCommand_subscribed (self : Node) (msg : Command) :
  is_prev_control_cmd_subscribed_ (onControlCommand self msg) =
  is_prev_control_cmd_subscribed_ self || negb (State_eqb (state_of self) OPERATING).
Proof.
  unfold onControlCommand.
  destruct (State_eqb _ _); cbn [negb is_prev_control_cmd_subscribed_];
    now destruct (is_prev_control_cmd_subscribed_ self).
Qed.

Lemma onTimer_state (self : Node) (clk : Clock) :
  state_of (fst (onTimer self clk)) = state_of self.
Proof. unfold onTimer. now destruct (State_eqb _ _). Qed.

Lemma onTimer_params (self : Node) (clk : Clock) :
  params_ (fst (onTimer self clk)) = params_ self.
Proof. unfold onTimer. now destruct (State_eqb _ _). Qed.

Lemma onTimer_subscribed (self : Node) (clk : Clock) :
  is_prev_control_cmd_subscribed_ (fst (onTimer self clk)) =
  is_prev_control_cmd_subscribed_ self.
Proof. unfold onTimer. now destruct (State_eqb _ _). Qed.

Lemma onTimer_operating (self : Node) (clk : Clock) :
  state_of self = OPERATING ->
  onTimer self clk =
  (set_prev_control_cmd self (calcTargetAcceleration self clk (prev_control_cmd_ self)),
   [PubControlCmd (calcTargetAcceleration self clk (prev_control_cmd_ self));
    PubStatus (MrmBehaviorStatus.mk (clk 3%nat) OPERATING)]).
Proof.
  intro H. unfold onTimer. rewrite H. cbn [State_eqb].
  unfold publishStatus, publishControlCommand, state_of, after.
  cbn [set_prev_control_cmd status_ Nat.add].
  unfold state_of in H. now rewrite H.
Qed.

Lemma onTimer_not_operating (self : Node) (clk : Clock) :
  state_of self <> OPERATING ->
  onTimer self clk =
  (self, [PubControlCmd (prev_control_cmd_ self);
          PubStatus (MrmBehaviorStatus.mk (clk 0%nat) (state_of self))]).
Proof.
  intro H. unfold onTimer. apply State_eqb_neq in H. now rewrite H.
Qed.

Lemma operateEmergencyStop_subscribed (self : Node) (operate : bool) :
  is_prev_control_cmd_subscribed_ (fst (operateEmergencyStop self operate)) =
  is_prev_control_cmd_subscribed_ self.
Proof. now destruct operate. Qed.

(** * Executions *)

Lemma final_nil (self : Node) : final self [] = self.
Proof. reflexivity. Qed.

Lemma final_cons (self : Node) (ev : Event) (evs : list Event) :
  final self (ev :: evs) = final (fst (step self ev)) evs.
Proof.
  unfold final. cbn [run]. destruct (step self ev) as [s1 o1]. cbn [fst].
  now destruct (run s1 evs).
Qed.

Lemma sent_nil (self : Node) : sent self [] = [].
Proof. reflexivity. Qed.

Lemma sent_cons (self : Node) (ev : Event) (evs : list Event) :
  sent self (ev :: evs) = snd (step self ev) ++ sent (fst (step self ev)) evs.
Proof.
  unfold sent. cbn [run]. destruct (step self ev) as [s1 o1]. cbn [fst snd].
  now destruct (run s1 evs).
Qed.

Lemma final_app (self : Node) (evs1 evs2 : list Event) :
  final self (evs1 ++ evs2) = final (final self evs1) evs2.
Proof.
  revert self. induction evs1 as [ | ev evs1 IH]; intro self; [reflexivity | ].
  cbn [app]. now rewrite !final_cons, IH.
Qed.

Lemma sent_append (self : Node) (evs1 evs2 : list Event) :
  sent self (evs1 ++ evs2) = sent self evs1 ++ sent (final self evs1) evs2.
Proof.
  revert self. induction evs1 as [ | ev evs1 IH]; intro self; [reflexivity | ].
  cbn [app]. now rewrite !sent_cons, final_cons, IH, app_assoc.
Qed.

Lemma published_app (o1 o2 : list Output) :
  published (o1 ++ o2) = published o1 ++ published o2.
Proof.
  induction o1 as [ | [c | s | b] o1 IH]; cbn [app published]; now rewrite ?IH.
Qed.

Lemma step_control (self : Node) (msg : Command) :
  step self (ControlCommand msg) = (onControlCommand self msg, []).
Proof. reflexivity. Qed.

Lemma step_operate (self : Node) (operate : bool) :
  step self (OperateMrm operate) =
  (fst (operateEmergencyStop self operate), [Response true]).
Proof. now destruct operate. Qed.

Lemma step_state (self : Node) (ev : Event) :
  state_of (fst (step self ev)) = takeover (state_of self) ev.
Proof.
  destruct ev as [msg | [ | ] | clk]; cbn [step takeover fst];
    auto using onControlCommand_state, onTimer_state.
Qed.

Lemma step_params (self : Node) (ev : Event) :
  params_ (fst (step self ev)) = params_ self.
Proof.
  destruct ev as [msg | [ | ] | clk]; cbn [step fst];
    auto using onControlCommand_params, onTimer_params.
Qed.

Lemma final_params (self : Node) (evs : list Event) :
  params_ (final self evs) = params_ self.
Proof.
  revert self. induction evs as [ | ev evs IH]; intro self; [reflexivity | ].
  now rewrite final_cons, IH, step_params.
Qed.

Lemma final_state (self : Node) (evs : list Event) :
  state_of (final self evs) = fold_left takeover evs (state_of self).
Proof.
  revert self. induction evs as [ | ev evs IH]; intro self; [reflexivity | ].
  now rewrite final_cons, IH, step_state.
Qed.

(** The node has observed an upstream command after the events exactly when
    it had before them or one of them is observed. *)
Lemma final_subscribed (self : Node) (evs : list Event) :
  is_prev_control_cmd_subscribed_ (final self evs) =
  is_prev_control_cmd_subscribed_ self || observes (state_of self) evs.
Proof.
  revert self. induction evs as [ | ev evs IH]; intro self.
  - rewrite final_nil. cbn [observes]. now rewrite orb_false_r.
  - rewrite final_cons, IH, step_state.
    destruct ev as [msg | op | clk].
    + rewrite step_control. cbn [fst takeover observes].
      rewrite onControlCommand_subscribed. now rewrite orb_assoc.
    + rewrite step_operate. cbn [fst observes].
      now rewrite operateEmergencyStop_subscribed.
    + cbn [step takeover observes]. now rewrite onTimer_subscribed.
Qed.

(** * The inbound command handler *)

(** C7.  An upstream command that arrives while the state is not [OPERATING]
    becomes the stored command and sets the has-been-observed flag, the
    other members being kept; one that arrives while the state is
    [OPERATING] leaves the whole node as it was. *)
Theorem C7_onControlCommand_frame (self : Node) (msg : Command) :
  (state_of self <> OPERATING ->
     prev_control_cmd_ (onControlCommand self msg) = msg /\
     is_prev_control_cmd_subscribed_ (onControlCommand self msg) = true /\
     params_ (onControlCommand self msg) = params_ self /\
     status_ (onControlCommand self msg) = status_ self /\
     lateral_cmd_at_start_of_emergency_stop_ (onControlCommand self msg) =
       lateral_cmd_at_start_of_emergency_stop_ self) /\
  (state_of self = OPERATING -> onControlCommand self msg = self).
Proof.
  split.
  - intro H. rewrite (onControlCommand_accepted self msg H).
    repeat split.
  - apply onControlCommand_ignored.
Qed.

Lemma C7_witness :
  prev_control_cmd_ (onControlCommand (node_with AVAILABLE cruise_cmd) reverse_cmd)
    = reverse_cmd /\
  onControlCommand (node_with OPERATING cruise_cmd) reverse_cmd
    = node_with OPERATING cruise_cmd.
Proof.
  split.
  - apply (proj1 (C7_onControlCommand_frame (node_with AVAILABLE cruise_cmd) reverse_cmd)).
    discriminate.
  - apply (proj2 (C7_onControlCommand_frame (node_with OPERATING cruise_cmd) reverse_cmd)).
    reflexivity.
Defined.

(** * The takeover state *)

(** C9.  The state is [AVAILABLE] after construction; a timer tick and an
    upstream command each leave it as it is; hence after any events it is
    what the takeover requests among them alone make of [AVAILABLE]. *)
Theorem C9_state_changes_only_by_request :
  (forall p, state_of (MrmEmergencyStopOperator_new p) = AVAILABLE) /\
  (forall self clk, state_of (fst (onTimer self clk)) = state_of self) /\
  (forall self msg, state_of (onControlCommand self msg) = state_of self) /\
  (forall p evs,
     state_of (final (MrmEmergencyStopOperator_new p) evs) =
     fold_left takeover evs AVAILABLE).
Proof.
  repeat split.
  - apply onTimer_state.
  - apply onControlCommand_state.
  - intros p evs. now rewrite final_state.
Qed.

(** * Time stamps of the ramp output *)

(** In the cold-start path each of the three stamps is a reading of the
    clock. *)
Lemma calcTargetAcceleration_stamps_cold (self : Node) (clk : Clock) (prev : Command) :
  is_prev_control_cmd_subscribed_ self = false ->
  AckermannControlCommand.stamp (calcTargetAcceleration self clk prev) = clk 0%nat /\
  longitudinal_stamp_of (calcTargetAcceleration self clk prev) = clk 1%nat /\
  lateral_stamp_of (calcTargetAcceleration self clk prev) = clk 2%nat.
Proof. intro H. unfold calcTargetAcceleration. rewrite H. now repeat split. Qed.

(** In the integration path the top-level and the longitudinal stamp are
    readings of the clock, and the lateral stamp is the one of the previous
    command. *)
Lemma calcTargetAcceleration_stamps_ramp (self : Node) (clk : Clock) (prev : Command) :
  is_prev_control_cmd_subscribed_ self = true ->
  AckermannControlCommand.stamp (calcTargetAcceleration self clk prev) = clk 1%nat /\
  longitudinal_stamp_of (calcTargetAcceleration self clk prev) = clk 2%nat /\
  lateral_stamp_of (calcTargetAcceleration self clk prev) = lateral_stamp_of prev.
Proof. intro H. unfold calcTargetAcceleration. rewrite H. now repeat split. Qed.

(** C2.  The ramp run one second after an observed command stamped at time
    0: the top-level and the longitudinal stamp are the current time, the
    lateral stamp is still 0. *)
Theorem C2_lateral_stamp_not_refreshed :
  let c := calcTargetAcceleration (node_with OPERATING cruise_cmd) at_1s cruise_cmd in
  AckermannControlCommand.stamp c = 1000000000%Z /\
  longitudinal_stamp_of c = 1000000000%Z /\
  lateral_stamp_of c = 0%Z /\
  lateral_stamp_of c <> 1000000000%Z.
Proof.
  intro c.
  destruct (calcTargetAcceleration_stamps_ramp
              (node_with OPERATING cruise_cmd) at_1s cruise_cmd eq_refl)
    as (H1 & H2 & H3).
  fold c in H1, H2, H3. rewrite H1, H2, H3.
  repeat split. discriminate.
Qed.

(** * Cold start *)

Lemma calcTargetAcceleration_cold (self : Node) (clk : Clock) (prev : Command) :
  is_prev_control_cmd_subscribed_ self = false ->
  cold_start_values (params_ self) (calcTargetAcceleration self clk prev).
Proof.
  intro H. unfold calcTargetAcceleration. rewrite H.
  unfold cold_start_values. now repeat split.
Qed.

(** C4, refuted as stated: with target acceleration -2.7 the node is
    activated right after construction; the tick publishes the float
    nearest to -2.7 as acceleration, which is not equal to the target
    acceleration. *)
Lemma C4_counterexample :
  ~ C4_as_stated (params_with (-2.7) (-1.5)) [OperateMrm true] at_1s.
Proof.
  intro H. destruct (H eq_refl eq_refl) as (c & Hc & _ & Ha & _).
  vm_compute in Hc. injection Hc as <-.
  vm_compute in Ha. discriminate.
Qed.

(** C4, amended.  While no upstream command has been observed, the ramp
    output has speed 0, the target acceleration converted to float, jerk 0
    and a zero lateral command; in an execution from construction in which
    no upstream command is observed (those that arrive during a stop are
    not), every tick taken in state [OPERATING] publishes exactly one
    command, with these values; and the acceleration equals the target
    acceleration when that is a single-precision number. *)
Theorem C4_cold_start_output :
  (forall self clk prev,
     is_prev_control_cmd_subscribed_ self = false ->
     cold_start_values (params_ self) (calcTargetAcceleration self clk prev)) /\
  (forall p evs clk,
     observes AVAILABLE evs = false ->
     state_of (final (MrmEmergencyStopOperator_new p) evs) = OPERATING ->
     exists c,
       published (snd (onTimer (final (MrmEmergencyStopOperator_new p) evs) clk)) = [c] /\
       cold_start_values p c) /\
  (forall p c,
     is_float32 (target_acceleration p) = true ->
     cold_start_values p c ->
     feq (acceleration_of c) (target_acceleration p) = true).
Proof.
  split; [exact calcTargetAcceleration_cold | split].
  - intros p evs clk Hup Hst.
    rewrite (onTimer_operating _ clk Hst). cbn [snd published].
    eexists; split; [reflexivity | ].
    rewrite <- (final_params (MrmEmergencyStopOperator_new p) evs) at 1.
    apply calcTargetAcceleration_cold.
    rewrite final_subscribed. exact Hup.
  - intros p c Ht (_ & Ha & _). rewrite Ha. now apply is_float32_cast.
Qed.

Lemma C4_witness :
  (exists c,
     published
       (snd (onTimer
               (final (MrmEmergencyStopOperator_new default_params)
                      [Timer at_1s; OperateMrm true; ControlCommand cruise_cmd;
                       Timer at_1s; OperateMrm true])
               at_2s)) = [c] /\
     cold_start_values default_params c) /\
  feq (acceleration_of
         (calcTargetAcceleration (MrmEmergencyStopOperator_new default_params)
                                 at_1s AckermannControlCommand.zero))
      (target_acceleration default_params) = true.
Proof.
  destruct C4_cold_start_output as (Hcold & Hrun & Heq).
  split.
  - apply (Hrun default_params
             [Timer at_1s; OperateMrm true; ControlCommand cruise_cmd;
              Timer at_1s; OperateMrm true] at_2s); reflexivity.
  - apply (Heq default_params).
    + vm_compute. reflexivity.
    + apply (Hcold (MrmEmergencyStopOperator_new default_params)). reflexivity.
Defined.

(** * The ramp *)

(** The ramp reads the parameters and the has-been-observed flag of the
    node, and nothing else of it. *)
Lemma calcTargetAcceleration_ext (a b : Node) (clk : Clock) (prev : Command) :
  params_ a = params_ b ->
  is_prev_control_cmd_subscribed_ a = is_prev_control_cmd_subscribed_ b ->
  calcTargetAcceleration a clk prev = calcTargetAcceleration b clk prev.
Proof. intros Hp Hf. unfold calcTargetAcceleration. now rewrite Hp, Hf. Qed.

Lemma ramp_ext (a b : Node) (clks : list Clock) (prev : Command) :
  params_ a = params_ b ->
  is_prev_control_cmd_subscribed_ a = is_prev_control_cmd_subscribed_ b ->
  ramp a clks prev = ramp b clks prev.
Proof.
  intros Hp Hf. revert prev.
  induction clks as [ | clk clks IH]; intro prev; [reflexivity | ].
  cbn [ramp]. now rewrite IH, (calcTargetAcceleration_ext a b).
Qed.

Lemma calcTargetAcceleration_ramp (self : Node) (clk : Clock) (prev : Command) :
  is_prev_control_cmd_subscribed_ self = true ->
  calcTargetAcceleration self clk prev =
  AckermannControlCommand.mk
    (clk 1%nat)
    (AckermannControlCommand.lateral prev)
    (LongitudinalCommand.mk
       (clk 2%nat)
       (static_cast_float
          (std_max (dadd (speed_of prev) (dmul (acceleration_of prev) (dt_of clk prev)))
                   (Num 0)))
       (static_cast_float
          (std_max (dadd (acceleration_of prev)
                         (dmul (target_jerk (params_ self)) (dt_of clk prev)))
                   (target_acceleration (params_ self))))
       (if feq (acceleration_of prev) (target_acceleration (params_ self))
        then Num 0 else static_cast_float (target_jerk (params_ self)))).
Proof. intro H. unfold calcTargetAcceleration. now rewrite H. Qed.

Lemma acceleration_of_ramp (self : Node) (clk : Clock) (prev : Command) :
  is_prev_control_cmd_subscribed_ self = true ->
  acceleration_of (calcTargetAcceleration self clk prev) =
  static_cast_float
    (std_max (dadd (acceleration_of prev)
                   (dmul (target_jerk (params_ self)) (dt_of clk prev)))
             (target_acceleration (params_ self))).
Proof. intro H. now rewrite calcTargetAcceleration_ramp. Qed.

Lemma speed_of_ramp (self : Node) (clk : Clock) (prev : Command) :
  is_prev_control_cmd_subscribed_ self = true ->
  speed_of (calcTargetAcceleration self clk prev) =
  static_cast_float
    (std_max (dadd (speed_of prev) (dmul (acceleration_of prev) (dt_of clk prev)))
             (Num 0)).
Proof. intro H. now rewrite calcTargetAcceleration_ramp. Qed.

Lemma jerk_of_ramp (self : Node) (clk : Clock) (prev : Command) :
  is_prev_control_cmd_subscribed_ self = true ->
  jerk_of (calcTargetAcceleration self clk prev) =
  if feq (acceleration_of prev) (target_acceleration (params_ self))
  then Num 0 else static_cast_float (target_jerk (params_ self)).
Proof. intro H. now rewrite calcTargetAcceleration_ramp. Qed.

(** The lateral command goes through the ramp unchanged once an upstream
    command has been observed. *)
Lemma calcTargetAcceleration_lateral (self : Node) (clk : Clock) (prev : Command) :
  is_prev_control_cmd_subscribed_ self = true ->
  AckermannControlCommand.lateral (calcTargetAcceleration self clk prev) =
  AckermannControlCommand.lateral prev.
Proof. intro H. now rewrite calcTargetAcceleration_ramp. Qed.

(** Speed and acceleration of a ramp output are within the bounds, in both
    paths, whatever the elapsed time and whatever the numbers. *)
Lemma calcTargetAcceleration_within_bounds (self : Node) (clk : Clock) (prev : Command) :
  within_bounds (params_ self) (calcTargetAcceleration self clk prev).
Proof.
  destruct (is_prev_control_cmd_subscribed_ self) eqn:E.
  - split.
    + rewrite (speed_of_ramp self clk prev E).
      exact (clamp_step_ge _ (Num 0)).
    + rewrite (acceleration_of_ramp self clk prev E). apply clamp_step_ge.
  - destruct (calcTargetAcceleration_cold self clk prev E) as (Hs & Ha & _).
    split; [rewrite Hs; reflexivity | rewrite Ha; apply flt_irrefl].
Qed.

(** The ramp a tenth of a second after a command with speed 10 and
    acceleration 0: speed 10, jerk -1.5, and as acceleration the float
    nearest to the double product of -1.5 and the double nearest to 0.1. *)
Example ramp_step_from_cruise :
  longitudinal_values
    (calcTargetAcceleration (node_with OPERATING cruise_cmd)
                            (frozen 100000000%Z) cruise_cmd)
  = (100000000%Z, Num 10, Num (-5033165 # 33554432), Num (-3 # 2)).
Proof. vm_compute. reflexivity. Qed.

(** The ramp one second after a command with speed 10 that already brakes
    at the target: speed 7.5, acceleration -2.5, jerk 0. *)
Example ramp_step_at_target :
  longitudinal_values
    (calcTargetAcceleration (node_with OPERATING full_braking_cmd) at_1s full_braking_cmd)
  = (1000000000%Z, Num (15 # 2), Num (-5 # 2), Num 0).
Proof. vm_compute. reflexivity. Qed.

(** Construction, an upstream command, activation, a tick after one second,
    deactivation, a tick after two seconds: both ticks publish the ramp
    output of the first. *)
Example takeover_release_trace :
  map longitudinal_values
      (published
         (sent (MrmEmergencyStopOperator_new default_params)
               (takeover_then_release cruise_cmd [Timer at_1s] ++ [Timer at_2s])))
  = [(1000000000%Z, Num 10, Num (-3 # 2), Num (-3 # 2));
     (1000000000%Z, Num 10, Num (-3 # 2), Num (-3 # 2))].
Proof. vm_compute. reflexivity. Qed.

(** With target acceleration -2.6 the ramp never reports jerk 0: every
    step stores the float nearest to -2.6, which is not equal to the
    target. *)
Example ramp_never_settles_at_2_6 :
  map longitudinal_values
      (ramp (node_of (params_with (-2.6) (-1.5)) OPERATING full_braking_cmd)
            [at_1s; at_2s; at_4s] full_braking_cmd)
  = [(1000000000%Z, Num (15 # 2), Num (-5452595 # 2097152), Num (-3 # 2));
     (2000000000%Z, Num (10276045 # 2097152), Num (-5452595 # 2097152), Num (-3 # 2));
     (4000000000%Z, Num 0, Num (-5452595 # 2097152), Num (-3 # 2))].
Proof. vm_compute. reflexivity. Qed.

(** * Bounds on what is published *)

(** C3, refuted as stated, twice.  With the default parameters, an upstream
    command with negative speed that arrives after construction is
    republished as it is by the next tick.  With target acceleration -2.7,
    the tick after an activation publishes the float nearest to -2.7 as
    acceleration, which is below the target acceleration. *)
Lemma C3_counterexample :
  ~ C3_as_stated default_params [ControlCommand reverse_cmd; Timer at_1s] /\
  ~ C3_as_stated (params_with (-2.7) (-1.5)) [OperateMrm true; Timer at_1s].
Proof.
  split; unfold C3_as_stated; intro H.
  - change (published _) with [reverse_cmd] in H.
    apply Forall_inv in H. destruct H as [Hs _].
    vm_compute in Hs. discriminate.
  - change (published _)
      with [calcTargetAcceleration
              (MrmEmergencyStopOperator_new (params_with (-2.7) (-1.5)))
              at_1s AckermannControlCommand.zero] in H.
    apply Forall_inv in H. destruct H as [_ Ha].
    vm_compute in Ha. discriminate.
Qed.

(** C3, amended.  A tick taken in state [OPERATING] publishes one command,
    the ramp output, whose speed is not below 0 and whose acceleration is
    not below the target acceleration converted to float, whatever the
    stored command and the clock; the acceleration is then not below the
    target acceleration itself when that is a single-precision number.  A
    tick taken in another state publishes the stored command as it is. *)
Theorem C3_operating_tick_within_bounds (self : Node) (clk : Clock) :
  (state_of self = OPERATING ->
     Forall (within_bounds (params_ self)) (published (snd (onTimer self clk))) /\
     published (snd (onTimer self clk)) =
       [calcTargetAcceleration self clk (prev_control_cmd_ self)]) /\
  (state_of self = OPERATING ->
   is_float32 (target_acceleration (params_ self)) = true ->
     Forall (stated_bounds (params_ self)) (published (snd (onTimer self clk)))) /\
  (state_of self <> OPERATING ->
     published (snd (onTimer self clk)) = [prev_control_cmd_ self]).
Proof.
  assert (Hb := calcTargetAcceleration_within_bounds self clk (prev_control_cmd_ self)).
  split; [ | split].
  - intro H. rewrite (onTimer_operating self clk H). cbn [snd published].
    split; [ | reflexivity].
    constructor; [exact Hb | constructor].
  - intros H Ht. rewrite (onTimer_operating self clk H). cbn [snd published].
    constructor; [ | constructor].
    destruct Hb as [Hs Ha]. split; [exact Hs | ].
    now apply not_below_float32.
  - intro H. now rewrite (onTimer_not_operating self clk H).
Qed.

Lemma C3_witness :
  Forall (within_bounds default_params)
         (published (snd (onTimer (node_with OPERATING reverse_cmd) at_1s))) /\
  Forall (stated_bounds default_params)
         (published (snd (onTimer (node_with OPERATING reverse_cmd) at_1s))) /\
  published (snd (onTimer (node_with AVAILABLE reverse_cmd) at_1s)) = [reverse_cmd].
Proof.
  destruct (C3_operating_tick_within_bounds (node_with OPERATING reverse_cmd) at_1s)
    as (H1 & H2 & _).
  destruct (C3_operating_tick_within_bounds (node_with AVAILABLE reverse_cmd) at_1s)
    as (_ & _ & H3).
  split; [ | split].
  - apply H1. reflexivity.
  - apply H2; [reflexivity | vm_compute; reflexivity].
  - apply H3. discriminate.
Defined.

(** * Monotonicity of a ramp step *)

(** C6, refuted as stated, three times, each one second after an observed
    command and with negative previous acceleration at or above the
    target.  From speed -1 the ramp outputs speed 0, which is above the
    previous speed.  With target acceleration -2.7 and previous acceleration
    -2.5 it outputs the float nearest to -2.7, which is below the target.
    From a speed that is not a number it outputs a speed that is not a
    number, which is neither at or above 0 nor at or below anything. *)
Lemma C6_counterexample :
  ~ C6_as_stated (node_with OPERATING reverse_cmd) at_1s reverse_cmd /\
  ~ C6_as_stated (node_of (params_with (-2.7) (-1.5)) OPERATING full_braking_cmd)
      at_1s full_braking_cmd /\
  ~ C6_as_stated (node_with OPERATING nan_speed_cmd) at_1s nan_speed_cmd.
Proof.
  split; [ | split]; unfold C6_as_stated; intro H.
  - destruct H as [_ Hspeed]; try (vm_compute; reflexivity).
    destruct Hspeed as [Hle _]; [vm_compute; reflexivity | ].
    vm_compute in Hle. discriminate.
  - destruct H as [[_ Hge] _]; try (vm_compute; reflexivity).
    vm_compute in Hge. discriminate.
  - destruct H as [_ Hspeed]; try (vm_compute; reflexivity).
    destruct Hspeed as [_ Hge]; [vm_compute; reflexivity | ].
    vm_compute in Hge. discriminate.
Qed.

(** C6, amended.  In a ramp step with finite previous acceleration, elapsed
    time finite and not negative, target jerk finite and negative, target
    acceleration negative and previous acceleration not below the target,
    the output acceleration is at most the previous acceleration and at
    least the target acceleration converted to float; and when the previous
    acceleration is negative and the previous speed is finite, the output
    speed is at least 0, and it is at most the previous speed when that is
    not negative. *)
Theorem C6_ramp_step_monotone (self : Node) (clk : Clock) (prev : Command) :
  let c := calcTargetAcceleration self clk prev in
  is_float32 (acceleration_of prev) = true ->
  nonneg_finite (dt_of clk prev) = true ->
  is_finite (target_jerk (params_ self)) = true ->
  flt (target_jerk (params_ self)) (Num 0) = true ->
  flt (target_acceleration (params_ self)) (Num 0) = true ->
  fle (target_acceleration (params_ self)) (acceleration_of prev) = true ->
  (fle (acceleration_of c) (acceleration_of prev) = true /\
   fle (static_cast_float (target_acceleration (params_ self))) (acceleration_of c) = true) /\
  (flt (acceleration_of prev) (Num 0) = true ->
   is_float32 (speed_of prev) = true ->
   (fle (Num 0) (speed_of prev) = true -> fle (speed_of c) (speed_of prev) = true) /\
   fle (Num 0) (speed_of c) = true).
Proof.
  intros c Ha Hdt Fj Hj Ht Hp.
  assert (Lj : fle (target_jerk (params_ self)) (Num 0) = true) by now apply flt_fle.
  assert (Nt : is_nan (target_acceleration (params_ self)) = false)
    by now apply fle_not_nan in Hp.
  assert (Lta : fle (static_cast_float (target_acceleration (params_ self)))
                    (acceleration_of prev) = true).
  { apply static_cast_float_le; assumption. }
  destruct (calcTargetAcceleration_within_bounds self clk prev) as [Hs0 Ha0].
  fold c in Hs0, Ha0.
  destruct (is_prev_control_cmd_subscribed_ self) eqn:E.
  - assert (Hacc : fle (acceleration_of c) (acceleration_of prev) = true).
    { unfold c. rewrite (acceleration_of_ramp self clk prev E).
      apply clamp_step_le; try assumption. now apply fle_flt_false. }
    split; [split; [exact Hacc | ] | ].
    + apply flt_false_fle; [ | | exact Ha0].
      * now apply fle_not_nan in Hacc.
      * now apply fcast_not_nan.
    + intros Hneg Hs.
      assert (Lneg : fle (acceleration_of prev) (Num 0) = true) by now apply flt_fle.
      assert (Hdown := step_down (speed_of prev) (acceleration_of prev) (dt_of clk prev)
                         Hs (is_float32_finite _ Ha) Lneg Hdt).
      split.
      * intro H0. unfold c. rewrite (speed_of_ramp self clk prev E).
        apply clamp_step_le; try assumption.
        -- now apply is_float32_finite.
        -- now apply fle_flt_false.
      * apply flt_false_fle; [ | reflexivity | exact Hs0].
        unfold c. rewrite (speed_of_ramp self clk prev E).
        apply fcast_not_nan. unfold std_max.
        destruct (flt (dadd (speed_of prev)
                            (dmul (acceleration_of prev) (dt_of clk prev)))
                      (Num 0));
          [reflexivity | now apply fle_not_nan in Hdown].
  - destruct (calcTargetAcceleration_cold self clk prev E) as (Hs1 & Hacc & _).
    fold c in Hs1, Hacc.
    rewrite Hs1, Hacc.
    split; [split; [exact Lta | ] | ].
    + apply fle_refl. now apply fcast_not_nan.
    + intros _ _. split; [now intros H0 | reflexivity].
Qed.

Lemma C6_witness :
  let c := calcTargetAcceleration (node_with OPERATING braking_cmd) at_1s braking_cmd in
  (fle (acceleration_of c) (acceleration_of braking_cmd) = true /\
   fle (static_cast_float (target_acceleration default_params)) (acceleration_of c) = true) /\
  fle (speed_of c) (speed_of braking_cmd) = true /\ fle (Num 0) (speed_of c) = true.
Proof.
  destruct (C6_ramp_step_monotone (node_with OPERATING braking_cmd) at_1s braking_cmd)
    as [Hacc Hspeed]; try (vm_compute; reflexivity).
  split; [exact Hacc | ].
  destruct Hspeed as [Hle H0]; try (vm_compute; reflexivity).
  split; [apply Hle; vm_compute; reflexivity | exact H0].
Defined.

(** * Jerk, and holding the target *)

(** A step at which the clamp takes effect outputs the target acceleration
    converted to float. *)
Lemma clamped_output (self : Node) (clk : Clock) (prev : Command) :
  is_prev_control_cmd_subscribed_ self = true ->
  clamped self clk prev = true ->
  feq (acceleration_of (calcTargetAcceleration self clk prev))
      (static_cast_float (target_acceleration (params_ self))) = true.
Proof.
  intros Hsub Hc. rewrite (acceleration_of_ramp self clk prev Hsub).
  apply fcast_feq; [apply wf32 | ].
  unfold clamped in Hc. unfold std_max.
  destruct (flt _ (target_acceleration (params_ self))) eqn:E.
  - apply feq_refl. now apply fle_not_nan in Hc.
  - apply fle_antisym; [exact Hc | ].
    apply flt_false_fle; [ | | exact E]; now apply fle_not_nan in Hc.
Qed.

Lemma ramp_holds_target (self : Node) (clks : list Clock) (prev : Command) :
  is_prev_control_cmd_subscribed_ self = true ->
  is_finite (target_jerk (params_ self)) = true ->
  fle (target_jerk (params_ self)) (Num 0) = true ->
  is_float32 (acceleration_of prev) = true ->
  feq (acceleration_of prev) (target_acceleration (params_ self)) = true ->
  elapsed_nonneg self clks prev ->
  Forall (holds_target (params_ self)) (ramp self clks prev).
Proof.
  intros Hsub Fj Lj. revert prev.
  induction clks as [ | clk clks IH]; intros prev Ha Hacc Hdt; [constructor | ].
  destruct Hdt as [Hdt Hrest]. cbn [ramp].
  set (c := calcTargetAcceleration self clk prev) in *.
  destruct (hold_step (acceleration_of prev) (target_jerk (params_ self))
                      (dt_of clk prev) (target_acceleration (params_ self))
                      Ha Hacc Fj Lj Hdt) as [Heq Hf].
  rewrite <- (acceleration_of_ramp self clk prev Hsub) in Heq, Hf. fold c in Heq, Hf.
  constructor; [ | now apply IH].
  split; [exact Heq | ].
  unfold c. rewrite (jerk_of_ramp self clk prev Hsub). now rewrite Hacc.
Qed.

(** C5, refuted as stated, in each half.  With target jerk -1.7 the output
    jerk one second after a command with acceleration 0 is the float
    nearest to -1.7, which is not equal to the target jerk.  With target
    acceleration -2.6 the clamp takes effect one second after a command
    with acceleration -2.5, and the next step, one second later, reports
    jerk -1.5: its previous acceleration is the float nearest to -2.6,
    which is not equal to the target acceleration. *)
Lemma C5_counterexample :
  ~ C5_jerk_as_stated (node_of (params_with (-2.5) (-1.7)) OPERATING cruise_cmd)
      at_1s cruise_cmd /\
  ~ C5_hold_as_stated (node_of (params_with (-2.6) (-1.5)) OPERATING full_braking_cmd)
      at_1s full_braking_cmd [at_2s].
Proof.
  split.
  - unfold C5_jerk_as_stated. intro H.
    destruct (H eq_refl) as [_ Hj].
    assert (Hf : feq (jerk_of (calcTargetAcceleration
                                 (node_of (params_with (-2.5) (-1.7)) OPERATING cruise_cmd)
                                 at_1s cruise_cmd))
                     (target_jerk (params_ (node_of (params_with (-2.5) (-1.7))
                                                   OPERATING cruise_cmd))) = true)
      by (apply Hj; vm_compute; reflexivity).
    vm_compute in Hf. discriminate.
  - unfold C5_hold_as_stated. intro H.
    assert (Hf : Forall (holds_target
                           (params_ (node_of (params_with (-2.6) (-1.5))
                                             OPERATING full_braking_cmd)))
                        (ramp (node_of (params_with (-2.6) (-1.5)) OPERATING full_braking_cmd)
                              [at_2s]
                              (calcTargetAcceleration
                                 (node_of (params_with (-2.6) (-1.5))
                                          OPERATING full_braking_cmd)
                                 at_1s full_braking_cmd))).
    { apply H; try (vm_compute; reflexivity).
      split; [vm_compute; reflexivity | exact I]. }
    cbn [ramp] in Hf. apply Forall_inv in Hf. destruct Hf as [_ Hj].
    vm_compute in Hj. discriminate.
Qed.

(** C5, amended.  In a ramp step with an observed previous command the
    output jerk is 0 when the previous acceleration equals the target
    acceleration and the target jerk converted to float otherwise.  A step
    at which the clamp takes effect outputs the target acceleration
    converted to float, which equals the target acceleration when that is
    a single-precision number.  And when the output acceleration of a step
    equals the target acceleration, every later step, with elapsed time
    finite and not negative and target jerk finite and not positive,
    outputs an acceleration equal to the target and jerk 0. *)
Theorem C5_jerk_settles (self : Node) (clk : Clock) (prev : Command) :
  is_prev_control_cmd_subscribed_ self = true ->
  let c := calcTargetAcceleration self clk prev in
  (feq (acceleration_of prev) (target_acceleration (params_ self)) = true ->
   jerk_of c = Num 0) /\
  (feq (acceleration_of prev) (target_acceleration (params_ self)) = false ->
   jerk_of c = static_cast_float (target_jerk (params_ self))) /\
  (clamped self clk prev = true ->
   feq (acceleration_of c) (static_cast_float (target_acceleration (params_ self))) = true /\
   (is_float32 (target_acceleration (params_ self)) = true ->
    feq (acceleration_of c) (target_acceleration (params_ self)) = true)) /\
  (forall clks,
     is_finite (target_jerk (params_ self)) = true ->
     fle (target_jerk (params_ self)) (Num 0) = true ->
     is_finite (target_acceleration (params_ self)) = true ->
     feq (acceleration_of c) (target_acceleration (params_ self)) = true ->
     elapsed_nonneg self clks c ->
     Forall (holds_target (params_ self)) (ramp self clks c)).
Proof.
  intros Hsub c.
  split; [ | split; [ | split]].
  - intro Heq. unfold c. rewrite (jerk_of_ramp self clk prev Hsub). now rewrite Heq.
  - intro Hneq. unfold c. rewrite (jerk_of_ramp self clk prev Hsub). now rewrite Hneq.
  - intro Hc. assert (H := clamped_output self clk prev Hsub Hc). fold c in H.
    split; [exact H | ].
    intro Ht. apply (feq_trans _ _ _ H). now apply is_float32_cast.
  - intros clks Fj Lj Ft Hacc Hdt.
    apply ramp_holds_target; try assumption.
    unfold c. rewrite (acceleration_of_ramp self clk prev Hsub).
    apply static_cast_float_is_float32.
    rewrite <- (acceleration_of_ramp self clk prev Hsub). fold c.
    exact (feq_is_finite _ _ Hacc Ft).
Qed.

Lemma C5_witness :
  let self := node_with OPERATING braking_cmd in
  let c := calcTargetAcceleration self at_1s braking_cmd in
  jerk_of c = static_cast_float (target_jerk default_params) /\
  feq (acceleration_of c) (target_acceleration default_params) = true /\
  Forall (holds_target default_params) (ramp self [at_2s; frozen 3000000000%Z] c).
Proof.
  intros self c.
  destruct (C5_jerk_settles self at_1s braking_cmd eq_refl)
    as (_ & Hjerk & Hclamp & Hhold).
  split; [ | split].
  - apply Hjerk. vm_compute. reflexivity.
  - apply Hclamp; vm_compute; reflexivity.
  - apply Hhold; try (vm_compute; reflexivity).
    cbn [elapsed_nonneg]. repeat split; vm_compute; reflexivity.
Defined.

(** * The operating phase *)

Lemma last_cons_default {A : Type} (x d : A) (l : list A) :
  last (x :: l) d = last l x.
Proof.
  revert x d. induction l as [ | y l IH]; intros x d; [reflexivity | ].
  change (last (x :: y :: l) d) with (last (y :: l) d). now rewrite !IH.
Qed.

Lemma operateEmergencyStop_activate (self : Node) :
  fst (operateEmergencyStop self true) =
  set_state (set_lateral_cmd_at_start self (snapshot_of self)) OPERATING.
Proof. reflexivity. Qed.

(** While the node operates and is not released, the stored command is the
    last output of the ramp started from the command stored at the
    beginning, and the commands published are the outputs of the ramp. *)
Lemma operating_phase (self : Node) (ops : list Event) :
  state_of self = OPERATING ->
  no_release ops = true ->
  state_of (final self ops) = OPERATING /\
  params_ (final self ops) = params_ self /\
  is_prev_control_cmd_subscribed_ (final self ops) =
    is_prev_control_cmd_subscribed_ self /\
  prev_control_cmd_ (final self ops) =
    last (ramp self (ticks ops) (prev_control_cmd_ self)) (prev_control_cmd_ self) /\
  published (sent self ops) = ramp self (ticks ops) (prev_control_cmd_ self).
Proof.
  revert self. induction ops as [ | ev ops IH]; intros self Hst Hrel.
  - repeat split; [exact Hst].
  - cbn [no_release forallb] in Hrel. apply andb_true_iff in Hrel as [Hev Hrel].
    rewrite final_cons, sent_cons, published_app.
    destruct ev as [msg | [ | ] | clk]; [ | | discriminate | ].
    + cbn [step fst snd published app ticks].
      rewrite (onControlCommand_ignored self msg Hst).
      now apply IH.
    + rewrite step_operate. cbn [fst snd published app ticks].
      set (self1 := fst (operateEmergencyStop self true)).
      destruct (IH self1 eq_refl Hrel) as (H1 & H2 & H3 & H4 & H5).
      rewrite H1, H2, H3, H4, H5.
      change (prev_control_cmd_ self1) with (prev_control_cmd_ self).
      rewrite (ramp_ext self1 self) by reflexivity.
      now repeat split.
    + cbn [step]. rewrite (onTimer_operating self clk Hst).
      cbn [fst snd published app ticks ramp].
      set (c := calcTargetAcceleration self clk (prev_control_cmd_ self)).
      set (self1 := set_prev_control_cmd self c).
      assert (Hst1 : state_of self1 = OPERATING) by exact Hst.
      destruct (IH self1 Hst1 Hrel) as (H1 & H2 & H3 & H4 & H5).
      rewrite H1, H2, H3, H4, H5.
      change (prev_control_cmd_ self1) with c.
      rewrite (ramp_ext self1 self) by reflexivity.
      rewrite last_cons_default.
      now repeat split.
Qed.

(** * Deactivation *)

(** C1, refuted as stated: the node with the default parameters observes a
    command, is activated, ticks one second later and is deactivated; the
    next tick does not publish the observed command. *)
Lemma C1_counterexample :
  ~ C1_as_stated (MrmEmergencyStopOperator_new default_params) cruise_cmd
      [Timer at_1s] at_2s.
Proof.
  unfold C1_as_stated. intro H.
  assert (Hpub : published
                   (snd (onTimer
                           (final (MrmEmergencyStopOperator_new default_params)
                                  (takeover_then_release cruise_cmd [Timer at_1s]))
                           at_2s)) = [cruise_cmd]).
  { apply H; [discriminate | reflexivity | discriminate]. }
  apply (f_equal (map AckermannControlCommand.stamp)) in Hpub.
  vm_compute in Hpub. discriminate.
Qed.

(** C1, amended.  After an upstream command [c] is observed, the node is
    activated, any ticks, upstream commands and activation requests follow,
    and the node is deactivated, the next tick publishes the last output of
    the ramp run from [c] over those ticks, which is the command that the
    last of them published, and is [c] when there was no tick. *)
Theorem C1_republishes_last_ramp_output
    (self : Node) (c : Command) (ops : list Event) (clk : Clock) :
  state_of self <> OPERATING ->
  no_release ops = true ->
  published (snd (onTimer (final self (takeover_then_release c ops)) clk)) =
  [last (ramp (onControlCommand self c) (ticks ops) c) c].
Proof.
  intros Hst Hrel. unfold takeover_then_release.
  rewrite final_cons. cbn [step]. cbn [fst].
  rewrite final_cons, step_operate. cbn [fst].
  rewrite final_app.
  set (self0 := onControlCommand self c).
  set (self1 := fst (operateEmergencyStop self0 true)).
  assert (Hprev0 : prev_control_cmd_ self0 = c).
  { unfold self0. now rewrite (onControlCommand_accepted self c Hst). }
  assert (Hprev1 : prev_control_cmd_ self1 = c) by exact Hprev0.
  destruct (operating_phase self1 ops eq_refl Hrel) as (_ & _ & _ & Hprev & _).
  rewrite Hprev1 in Hprev. rewrite (ramp_ext self1 self0) in Hprev by reflexivity.
  set (self2 := final self1 ops) in *.
  rewrite final_cons, step_operate, final_nil. cbn [fst].
  rewrite onTimer_not_operating by discriminate.
  cbn [snd published].
  change (prev_control_cmd_ (fst (operateEmergencyStop self2 false)))
    with (prev_control_cmd_ self2).
  now rewrite Hprev.
Qed.

Lemma C1_witness :
  published
    (snd (onTimer
            (final (MrmEmergencyStopOperator_new default_params)
                   (takeover_then_release cruise_cmd [Timer at_1s]))
            at_2s)) =
  [last (ramp (onControlCommand (MrmEmergencyStopOperator_new default_params) cruise_cmd)
              (ticks [Timer at_1s]) cruise_cmd)
        cruise_cmd].
Proof.
  apply (C1_republishes_last_ramp_output
           (MrmEmergencyStopOperator_new default_params) cruise_cmd [Timer at_1s] at_2s).
  - discriminate.
  - reflexivity.
Defined.

(** * Repeated activation *)

(** An activation request changes nothing in a node that operates and whose
    stored snapshot is the one the request would take. *)
Lemma operateEmergencyStop_again (self : Node) :
  state_of self = OPERATING ->
  snapshot_of self = lateral_cmd_at_start_of_emergency_stop_ self ->
  fst (operateEmergencyStop self true) = self.
Proof.
  intros Hst Hsnap. rewrite operateEmergencyStop_activate, Hsnap.
  destruct self as [p [t s] c l f]. unfold state_of in Hst.
  cbn [status_ MrmBehaviorStatus.state] in Hst.
  subst s. reflexivity.
Qed.

(** Right after an activation request the stored snapshot is the one a
    further request would take. *)
Lemma snapshot_of_activated (self : Node) :
  snapshot_of (fst (operateEmergencyStop self true)) =
  lateral_cmd_at_start_of_emergency_stop_ (fst (operateEmergencyStop self true)).
Proof.
  rewrite operateEmergencyStop_activate. unfold snapshot_of.
  cbn [set_state set_lateral_cmd_at_start is_prev_control_cmd_subscribed_
       prev_control_cmd_ lateral_cmd_at_start_of_emergency_stop_
       AckermannLateralCommand.stamp].
  now destruct (is_prev_control_cmd_subscribed_ self).
Qed.

(** A tick while operating keeps the snapshot a request would take. *)
Lemma snapshot_of_onTimer (self : Node) (clk : Clock) :
  state_of self = OPERATING ->
  snapshot_of (fst (onTimer self clk)) = snapshot_of self /\
  lateral_cmd_at_start_of_emergency_stop_ (fst (onTimer self clk)) =
    lateral_cmd_at_start_of_emergency_stop_ self.
Proof.
  intro Hst. rewrite (onTimer_operating self clk Hst). cbn [fst].
  split; [ | reflexivity].
  unfold snapshot_of.
  cbn [set_prev_control_cmd is_prev_control_cmd_subscribed_ prev_control_cmd_
       lateral_cmd_at_start_of_emergency_stop_].
  destruct (is_prev_control_cmd_subscribed_ self) eqn:E; [ | reflexivity].
  now apply calcTargetAcceleration_lateral.
Qed.

(** While the node operates and is not released, the stored snapshot stays
    what it was and what a further request would take. *)
Lemma snapshot_frozen (self : Node) (ops : list Event) :
  state_of self = OPERATING ->
  snapshot_of self = lateral_cmd_at_start_of_emergency_stop_ self ->
  no_release ops = true ->
  state_of (final self ops) = OPERATING /\
  snapshot_of (final self ops) = lateral_cmd_at_start_of_emergency_stop_ self /\
  lateral_cmd_at_start_of_emergency_stop_ (final self ops) =
    lateral_cmd_at_start_of_emergency_stop_ self.
Proof.
  revert self. induction ops as [ | ev ops IH]; intros self Hst Hsnap Hrel.
  - now repeat split.
  - cbn [no_release forallb] in Hrel. apply andb_true_iff in Hrel as [Hev Hrel].
    rewrite final_cons.
    destruct ev as [msg | [ | ] | clk]; [ | | discriminate | ].
    + cbn [step fst]. rewrite (onControlCommand_ignored self msg Hst).
      now apply IH.
    + rewrite step_operate. cbn [fst].
      rewrite (operateEmergencyStop_again self Hst Hsnap).
      now apply IH.
    + cbn [step].
      destruct (snapshot_of_onTimer self clk Hst) as [H1 H2].
      rewrite <- H2.
      apply IH; [now rewrite onTimer_state | now rewrite H1, H2 | exact Hrel].
Qed.

(** C8.  After an activation request followed by any ticks, upstream
    commands and further activation requests, one more activation request
    leaves the state and the stored lateral snapshot as the first request
    left them, and in fact changes nothing in the node. *)
Theorem C8_second_activation_idempotent (self : Node) (ops : list Event) :
  no_release ops = true ->
  let self1 := fst (operateEmergencyStop self true) in
  let self2 := final self1 ops in
  let self3 := fst (operateEmergencyStop self2 true) in
  state_of self3 = state_of self1 /\
  lateral_cmd_at_start_of_emergency_stop_ self3 =
    lateral_cmd_at_start_of_emergency_stop_ self1 /\
  self3 = self2.
Proof.
  intros Hrel self1 self2 self3.
  destruct (snapshot_frozen self1 ops eq_refl (snapshot_of_activated self) Hrel)
    as (Hst & Hsnap & Hlat).
  fold self2 in Hst, Hsnap, Hlat.
  assert (H32 : self3 = self2).
  { apply operateEmergencyStop_again; [exact Hst | now rewrite Hsnap, Hlat]. }
  rewrite H32. repeat split; [exact Hst | exact Hlat].
Qed.

Lemma C8_witness :
  let self1 := fst (operateEmergencyStop (node_with AVAILABLE cruise_cmd) true) in
  let self2 := final self1 [Timer at_1s; ControlCommand reverse_cmd; Timer at_2s] in
  let self3 := fst (operateEmergencyStop self2 true) in
  state_of self3 = state_of self1 /\
  lateral_cmd_at_start_of_emergency_stop_ self3 =
    lateral_cmd_at_start_of_emergency_stop_ self1 /\
  self3 = self2.
Proof.
  apply (C8_second_activation_idempotent (node_with AVAILABLE cruise_cmd)
           [Timer at_1s; ControlCommand reverse_cmd; Timer at_2s]).
  reflexivity.
Defined.

(** * The stored snapshot does not reach the output *)

Lemma same_but_snapshot_step (a b : Node) (ev : Event) :
  same_but_snapshot a b ->
  snd (step a ev) = snd (step b ev) /\
  same_but_snapshot (fst (step a ev)) (fst (step b ev)).
Proof.
  intros (Hp & Hs & Hc & Hf).
  assert (Hst : state_of a = state_of b) by (unfold state_of; now rewrite Hs).
  destruct ev as [msg | [ | ] | clk].
  - cbn [step fst snd]. split; [reflexivity | ].
    unfold onControlCommand. rewrite Hst.
    destruct (State_eqb (state_of b) OPERATING); cbn [negb];
      unfold same_but_snapshot; cbn; auto.
  - rewrite !step_operate. cbn [fst snd]. split; [reflexivity | ].
    rewrite !operateEmergencyStop_activate.
    unfold same_but_snapshot. cbn. rewrite Hp, Hs, Hc, Hf. auto.
  - rewrite !step_operate. cbn [fst snd]. split; [reflexivity | ].
    unfold same_but_snapshot. cbn. rewrite Hp, Hs, Hc, Hf. auto.
  - cbn [step]. unfold onTimer. rewrite Hst, Hc.
    rewrite (calcTargetAcceleration_ext a b) by assumption.
    destruct (State_eqb (state_of b) OPERATING); cbn [fst snd].
    + unfold publishStatus, same_but_snapshot, state_of. cbn.
      rewrite Hp, Hs, Hf. auto.
    + unfold publishStatus. rewrite Hst.
      unfold same_but_snapshot. auto.
Qed.

Lemma same_but_snapshot_sent (a b : Node) (evs : list Event) :
  same_but_snapshot a b -> sent a evs = sent b evs.
Proof.
  revert a b. induction evs as [ | ev evs IH]; intros a b H; [reflexivity | ].
  rewrite !sent_cons.
  destruct (same_but_snapshot_step a b ev H) as [Hout Hnext].
  now rewrite Hout, (IH _ _ Hnext).
Qed.

(** C10.  Two nodes that differ at most in the stored lateral snapshot send
    the same messages on the same events: the same control commands, and
    also the same status reports and responses. *)
Theorem C10_snapshot_does_not_reach_output (a b : Node) (evs : list Event) :
  same_but_snapshot a b ->
  published (sent a evs) = published (sent b evs) /\ sent a evs = sent b evs.
Proof.
  intro H. now rewrite (same_but_snapshot_sent a b evs H).
Qed.

Lemma C10_witness :
  let a := node_with AVAILABLE cruise_cmd in
  let b := set_lateral_cmd_at_start a
             (AckermannLateralCommand.mk 7%Z (f32 0.3) (f32 0.2)) in
  let evs := [Timer at_1s; OperateMrm true; Timer at_1s; Timer at_2s;
              OperateMrm false; Timer at_2s] in
  published (sent a evs) = published (sent b evs) /\ sent a evs = sent b evs.
Proof.
  intros a b evs.
  apply (C10_snapshot_does_not_reach_output a b evs).
  repeat split.
Defined.

(** * Further properties of the callbacks *)

(** ** Ticks outside an emergency stop *)

Lemma idle_ticks (self : Node) (clks : list Clock) :
  state_of self <> OPERATING ->
  final self (map Timer clks) = self /\
  published (sent self (map Timer clks)) =
    repeat (prev_control_cmd_ self) (length clks).
Proof.
  intro Hst. induction clks as [ | clk clks [IHf IHp]]; [now split | ].
  cbn [map length repeat]. rewrite final_cons, sent_cons, published_app.
  cbn [step]. rewrite (onTimer_not_operating self clk Hst). cbn [fst snd].
  split; [exact IHf | ].
  now rewrite IHp.
Qed.

(** X1.  Outside an emergency stop the timer changes nothing in the node,
    and every tick publishes the stored command again, whatever the
    clock. *)
Theorem X1_idle_ticks_republish (self : Node) (clks : list Clock) :
  state_of self <> OPERATING ->
  final self (map Timer clks) = self /\
  published (sent self (map Timer clks)) =
    repeat (prev_control_cmd_ self) (length clks).
Proof.
  intro Hst. induction clks as [ | clk clks [IHf IHp]]; [now split | ].
  cbn [map length repeat]. rewrite final_cons, sent_cons, published_app.
  cbn [step]. rewrite (onTimer_not_operating self clk Hst). cbn [fst snd].
  split; [exact IHf | now rewrite IHp].
Qed.

Lemma X1_witness :
  final (node_with AVAILABLE cruise_cmd) (map Timer [at_1s; at_2s]) =
    node_with AVAILABLE cruise_cmd /\
  published (sent (node_with AVAILABLE cruise_cmd) (map Timer [at_1s; at_2s])) =
    repeat cruise_cmd 2.
Proof.
  apply (X1_idle_ticks_republish (node_with AVAILABLE cruise_cmd) [at_1s; at_2s]).
  discriminate.
Defined.

(** X2.  In an execution from construction that consists of ticks, one
    upstream command and more ticks, with no takeover request, the ticks
    before the command publish the default-constructed command, all fields
    zero, and the ticks after it publish that command. *)
Theorem X2_startup_publishes_zero_then_upstream
    (p : Param) (clks1 clks2 : list Clock) (c : Command) :
  published
    (sent (MrmEmergencyStopOperator_new p)
          (map Timer clks1 ++ ControlCommand c :: map Timer clks2)) =
  repeat AckermannControlCommand.zero (length clks1) ++ repeat c (length clks2).
Proof.
  set (self := MrmEmergencyStopOperator_new p).
  assert (Hst : state_of self <> OPERATING) by discriminate.
  destruct (idle_ticks self clks1 Hst) as [Hf Hp].
  rewrite sent_append, published_app, Hp, Hf, sent_cons, published_app.
  rewrite step_control. cbn [fst snd published app].
  assert (Hst' : state_of (onControlCommand self c) <> OPERATING).
  { rewrite onControlCommand_state. exact Hst. }
  destruct (idle_ticks (onControlCommand self c) clks2 Hst') as [_ Hp2].
  rewrite Hp2, (onControlCommand_accepted self c Hst). reflexivity.
Qed.

(** ** What no event changes *)

Lemma step_subscribed (self : Node) (ev : Event) :
  is_prev_control_cmd_subscribed_ self = true ->
  is_prev_control_cmd_subscribed_ (fst (step self ev)) = true.
Proof.
  intro H. destruct ev as [msg | op | clk].
  - cbn [step fst]. unfold onControlCommand.
    now destruct (negb (State_eqb (state_of self) OPERATING)).
  - rewrite step_operate. cbn [fst]. now rewrite operateEmergencyStop_subscribed.
  - cbn [step]. now rewrite onTimer_subscribed.
Qed.

(** X3.  Once an upstream command has been observed the flag saying so is
    never cleared again: no request, tick or command brings the node back
    to the cold-start path of the ramp. *)
Theorem X3_observed_flag_is_never_cleared (self : Node) (evs : list Event) :
  is_prev_control_cmd_subscribed_ self = true ->
  is_prev_control_cmd_subscribed_ (final self evs) = true.
Proof.
  revert self. induction evs as [ | ev evs IH]; intros self H; [exact H | ].
  rewrite final_cons. apply IH. now apply step_subscribed.
Qed.

Lemma X3_witness :
  is_prev_control_cmd_subscribed_
    (final (node_with AVAILABLE cruise_cmd)
           [OperateMrm true; Timer at_1s; OperateMrm false; Timer at_2s]) = true.
Proof.
  apply (X3_observed_flag_is_never_cleared (node_with AVAILABLE cruise_cmd)
           [OperateMrm true; Timer at_1s; OperateMrm false; Timer at_2s]).
  reflexivity.
Defined.

Lemma step_status_stamp (self : Node) (ev : Event) :
  MrmBehaviorStatus.stamp (status_ (fst (step self ev))) =
  MrmBehaviorStatus.stamp (status_ self).
Proof.
  destruct ev as [msg | [ | ] | clk]; [ | reflexivity | reflexivity | ].
  - cbn [step fst]. unfold onControlCommand.
    now destruct (negb (State_eqb (state_of self) OPERATING)).
  - cbn [step]. unfold onTimer. now destruct (State_eqb (state_of self) OPERATING).
Qed.

(** X4.  No event changes the parameters, and none changes the stamp of the
    node's own status: the time of a status report is put on the copy that
    is published, never on the member. *)
Theorem X4_params_and_status_stamp_are_kept (self : Node) (evs : list Event) :
  params_ (final self evs) = params_ self /\
  MrmBehaviorStatus.stamp (status_ (final self evs)) =
    MrmBehaviorStatus.stamp (status_ self).
Proof.
  split; [apply final_params | ].
  revert self. induction evs as [ | ev evs IH]; intro self; [reflexivity | ].
  now rewrite final_cons, IH, step_status_stamp.
Qed.

(** ** What is sent, event by event *)

Lemma onTimer_sent (self : Node) (clk : Clock) :
  exists c t,
    snd (onTimer self clk) =
    [PubControlCmd c; PubStatus (MrmBehaviorStatus.mk t (state_of self))].
Proof.
  unfold onTimer. destruct (State_eqb (state_of self) OPERATING); cbn [snd];
    do 2 eexists; reflexivity.
Qed.

(** X5.  Every takeover request is answered, with success, and nothing else
    is: the responses sent are one [true] for each request, whatever the
    requests ask for and whatever the state. *)
Theorem X5_every_request_succeeds (self : Node) (evs : list Event) :
  responses (sent self evs) = map (fun _ => true) (requests evs).
Proof.
  revert self. induction evs as [ | ev evs IH]; intro self; [reflexivity | ].
  rewrite sent_cons.
  assert (Happ : forall o1 o2, responses (o1 ++ o2) = responses o1 ++ responses o2).
  { intros o1 o2.
    induction o1 as [ | [c | s | b] o1 IHo]; cbn [app responses]; now rewrite ?IHo. }
  rewrite Happ, IH.
  destruct ev as [msg | op | clk].
  - reflexivity.
  - now rewrite step_operate.
  - cbn [step requests]. destruct (onTimer_sent self clk) as (c & t & ->).
    reflexivity.
Qed.

(** X6.  Every tick publishes one control command and one status report,
    and the report carries the state that the takeover requests before the
    tick have set. *)
Theorem X6_each_tick_reports_the_state (self : Node) (evs : list Event) :
  map MrmBehaviorStatus.state (statuses (sent self evs)) =
    tick_states (state_of self) evs /\
  length (published (sent self evs)) = length (ticks evs) /\
  length (statuses (sent self evs)) = length (ticks evs).
Proof.
  assert (Happ : forall o1 o2, statuses (o1 ++ o2) = statuses o1 ++ statuses o2).
  { intros o1 o2.
    induction o1 as [ | [c | s | b] o1 IHo]; cbn [app statuses]; now rewrite ?IHo. }
  revert self. induction evs as [ | ev evs IH]; intro self; [now repeat split | ].
  rewrite sent_cons, published_app, Happ, !length_app, map_app.
  destruct (IH (fst (step self ev))) as (IH1 & IH2 & IH3).
  unfold Status in *. rewrite IH1, IH2, IH3, step_state.
  destruct ev as [msg | op | clk].
  - now repeat split.
  - rewrite step_operate. now repeat split.
  - cbn [step]. destruct (onTimer_sent self clk) as (c & t & ->).
    now repeat split.
Qed.

(** * Further properties of an emergency stop *)

Lemma ramp_end_last (self : Node) (clks : list Clock) (prev : Command) :
  ramp_end self clks prev = last (ramp self clks prev) prev.
Proof.
  revert prev. induction clks as [ | clk clks IH]; intro prev; [reflexivity | ].
  cbn [ramp_end ramp]. now rewrite last_cons_default, IH.
Qed.

(** X7.  While the node operates and is not released, what it publishes and
    what it keeps stored is the ramp fed back on itself over the ticks:
    upstream commands and repeated activation requests in between change
    neither. *)
Theorem X7_operating_ticks_run_the_ramp (self : Node) (ops : list Event) :
  state_of self = OPERATING ->
  no_release ops = true ->
  published (sent self ops) = ramp self (ticks ops) (prev_control_cmd_ self) /\
  prev_control_cmd_ (final self ops) =
    ramp_end self (ticks ops) (prev_control_cmd_ self).
Proof.
  intros Hst Hrel.
  destruct (operating_phase self ops Hst Hrel) as (_ & _ & _ & Hprev & Hpub).
  now rewrite ramp_end_last.
Qed.

Lemma X7_witness :
  let self := node_with OPERATING cruise_cmd in
  let ops := [Timer at_1s; ControlCommand reverse_cmd; OperateMrm true; Timer at_2s] in
  published (sent self ops) = ramp self [at_1s; at_2s] cruise_cmd /\
  prev_control_cmd_ (final self ops) = ramp_end self [at_1s; at_2s] cruise_cmd.
Proof.
  intros self ops.
  apply (X7_operating_ticks_run_the_ramp self ops); reflexivity.
Defined.

Lemma ramp_lateral (self : Node) (clks : list Clock) (prev : Command) :
  is_prev_control_cmd_subscribed_ self = true ->
  Forall (fun out => AckermannControlCommand.lateral out =
                     AckermannControlCommand.lateral prev)
         (ramp self clks prev).
Proof.
  intro Hsub. revert prev.
  induction clks as [ | clk clks IH]; intro prev; [constructor | ].
  cbn [ramp].
  assert (Hlat := calcTargetAcceleration_lateral self clk prev Hsub).
  constructor; [exact Hlat | ].
  rewrite <- Hlat. apply IH.
Qed.

(** X8.  When an upstream command [c] has been observed and the node is
    activated, the lateral part of [c], stamp included, is what the node
    stores as the command at the start of the stop and what every command
    published until the release carries: the steering is held. *)
Theorem X8_steering_is_held (self : Node) (c : Command) (ops : list Event) :
  state_of self <> OPERATING ->
  no_release ops = true ->
  lateral_cmd_at_start_of_emergency_stop_
    (final self (ControlCommand c :: OperateMrm true :: ops)) =
    AckermannControlCommand.lateral c /\
  Forall (fun out => AckermannControlCommand.lateral out =
                     AckermannControlCommand.lateral c)
         (published (sent self (ControlCommand c :: OperateMrm true :: ops))).
Proof.
  intros Hst Hrel.
  rewrite final_cons, sent_cons, step_control. cbn [fst snd app].
  rewrite final_cons, sent_cons, step_operate, published_app.
  cbn [fst snd published app].
  set (self0 := onControlCommand self c).
  set (self1 := fst (operateEmergencyStop self0 true)).
  assert (H0 : self0 =
               {| params_ := params_ self;
                  status_ := status_ self;
                  prev_control_cmd_ := c;
                  lateral_cmd_at_start_of_emergency_stop_ :=
                    lateral_cmd_at_start_of_emergency_stop_ self;
                  is_prev_control_cmd_subscribed_ := true |})
    by exact (onControlCommand_accepted self c Hst).
  assert (Hsub1 : is_prev_control_cmd_subscribed_ self1 = true)
    by (unfold self1; rewrite H0; reflexivity).
  assert (Hprev1 : prev_control_cmd_ self1 = c)
    by (unfold self1; rewrite H0; reflexivity).
  assert (Hsnap1 : lateral_cmd_at_start_of_emergency_stop_ self1 =
                   AckermannControlCommand.lateral c)
    by (unfold self1; rewrite H0; reflexivity).
  destruct (snapshot_frozen self1 ops eq_refl (snapshot_of_activated self0) Hrel)
    as (_ & _ & Hlat).
  destruct (operating_phase self1 ops eq_refl Hrel) as (_ & _ & _ & _ & Hpub).
  split.
  - now rewrite Hlat.
  - rewrite Hpub, Hprev1. now apply ramp_lateral.
Qed.

Lemma X8_witness :
  let evs := [ControlCommand cruise_cmd; OperateMrm true;
              Timer at_1s; ControlCommand reverse_cmd; Timer at_2s] in
  lateral_cmd_at_start_of_emergency_stop_
    (final (MrmEmergencyStopOperator_new default_params) evs) =
    AckermannControlCommand.lateral cruise_cmd /\
  Forall (fun out => AckermannControlCommand.lateral out =
                     AckermannControlCommand.lateral cruise_cmd)
         (published (sent (MrmEmergencyStopOperator_new default_params) evs)).
Proof.
  apply (X8_steering_is_held (MrmEmergencyStopOperator_new default_params) cruise_cmd
           [Timer at_1s; ControlCommand reverse_cmd; Timer at_2s]).
  - discriminate.
  - reflexivity.
Defined.

(** X9.  An activation that is released before anything else happens leaves
    no trace in what an [AVAILABLE] node sends afterwards: commands, status
    reports and responses are those of the node that was never activated. *)
Theorem X9_released_activation_leaves_no_trace (self : Node) (evs : list Event) :
  state_of self = AVAILABLE ->
  sent (final self [OperateMrm true; OperateMrm false]) evs = sent self evs.
Proof.
  intro Hst. apply same_but_snapshot_sent.
  destruct self as [p [t s] c l f]. unfold state_of in Hst.
  cbn [status_ MrmBehaviorStatus.state] in Hst. subst s.
  repeat split.
Qed.

Lemma X9_witness :
  sent (final (node_with AVAILABLE cruise_cmd) [OperateMrm true; OperateMrm false])
       [Timer at_1s; OperateMrm true; Timer at_2s] =
  sent (node_with AVAILABLE cruise_cmd) [Timer at_1s; OperateMrm true; Timer at_2s].
Proof.
  apply (X9_released_activation_leaves_no_trace (node_with AVAILABLE cruise_cmd)
           [Timer at_1s; OperateMrm true; Timer at_2s]).
  reflexivity.
Defined.

(** * Further properties of the ramp *)

Lemma zero_not_nan s : is_nan (zero s) = false.
Proof. now destruct s. Qed.

Lemma fmul_not_nan fmt x y :
  is_finite x = true -> is_finite y = true -> is_nan (fmul fmt x y) = false.
Proof.
  intros Fx Fy. rewrite (fmul_finite fmt x y Fx Fy).
  destruct (is_zero x || is_zero y); [apply zero_not_nan | apply round_not_nan].
Qed.

Lemma fadd_not_nan fmt x y :
  is_finite x = true -> is_nan y = false -> is_nan (fadd fmt x y) = false.
Proof.
  intros Fx Ny. destruct (is_finite y) eqn:Fy.
  - rewrite (fadd_finite fmt x y Fx Fy).
    destruct (is_zero x && is_zero y); [apply zero_not_nan | ].
    destruct (Qeq_bool (fval x + fval y) 0); [reflexivity | apply round_not_nan].
  - destruct x; try discriminate; destruct y; try discriminate; reflexivity.
Qed.

(** With finite numbers a step of the ramp stores a number. *)
Lemma clamp_step_not_nan (a k dt t : double) :
  is_finite a = true -> is_finite k = true -> is_finite dt = true ->
  is_nan t = false ->
  is_nan (static_cast_float (std_max (dadd a (dmul k dt)) t)) = false.
Proof.
  intros Fa Fk Fdt Nt. apply fcast_not_nan. unfold std_max.
  destruct (flt (dadd a (dmul k dt)) t); [exact Nt | ].
  apply fadd_not_nan; [exact Fa | now apply fmul_not_nan].
Qed.

(** A number between two finite numbers is finite. *)
Lemma fle_between_finite (lo x hi : fp) :
  is_finite lo = true -> is_finite hi = true ->
  fle lo x = true -> fle x hi = true -> is_finite x = true.
Proof.
  intros Flo Fhi H1 H2.
  destruct x; try reflexivity.
  - now apply fle_not_nan in H1.
  - destruct hi; discriminate.
  - destruct lo; discriminate.
Qed.

(** A number equal to 0 is a single-precision number. *)
Lemma feq_0_is_float32 (s : fp) : feq s (Num 0) = true -> is_float32 s = true.
Proof.
  intro H. destruct s; try discriminate; [reflexivity | ].
  apply (feq_finite (Num q) (Num 0) eq_refl eq_refl) in H. cbn [fval] in H.
  unfold is_float32, static_cast_float, fcast, round.
  apply Qeq_alt in H. rewrite H. cbn [is_finite andb].
  apply (feq_finite (Num 0) (Num q) eq_refl eq_refl). cbn [fval].
  symmetry. now apply Qeq_alt.
Qed.

(** X11.  From the second step of a stop on, the ramp needs no assumption
    on the command the stop started from: when the previous command is
    itself a ramp output with finite speed and acceleration, the elapsed
    time is finite and not negative and the target jerk is finite and not
    positive, the acceleration does not go up and is not below the target
    acceleration converted to float, the speed is at least 0, and the
    speed does not go up when the previous acceleration is not positive. *)
Theorem X11_second_step_on_is_monotone
    (self : Node) (clk clk' : Clock) (prev : Command) :
  is_prev_control_cmd_subscribed_ self = true ->
  is_finite (target_jerk (params_ self)) = true ->
  fle (target_jerk (params_ self)) (Num 0) = true ->
  let c := calcTargetAcceleration self clk prev in
  let c' := calcTargetAcceleration self clk' c in
  is_finite (speed_of c) = true ->
  is_finite (acceleration_of c) = true ->
  nonneg_finite (dt_of clk' c) = true ->
  fle (acceleration_of c') (acceleration_of c) = true /\
  flt (acceleration_of c') (static_cast_float (target_acceleration (params_ self))) = false /\
  fle (Num 0) (speed_of c') = true /\
  (fle (acceleration_of c) (Num 0) = true ->
   fle (speed_of c') (speed_of c) = true).
Proof.
  intros Hsub Fj Lj c c' Fs Fa Hdt.
  destruct (calcTargetAcceleration_within_bounds self clk prev) as [Hs Ha].
  destruct (calcTargetAcceleration_within_bounds self clk' c) as [Hs' Ha'].
  fold c in Hs, Ha. fold c' in Hs', Ha'.
  assert (Hfs : is_float32 (speed_of c) = true).
  { revert Fs. unfold c. rewrite (speed_of_ramp self clk prev Hsub).
    apply static_cast_float_is_float32. }
  assert (Hfa : is_float32 (acceleration_of c) = true).
  { revert Fa. unfold c. rewrite (acceleration_of_ramp self clk prev Hsub).
    apply static_cast_float_is_float32. }
  destruct (nonneg_finite_spec _ Hdt) as [Fdt _].
  split; [ | split; [exact Ha' | split]].
  - unfold c'. rewrite (acceleration_of_ramp self clk' c Hsub).
    now apply clamp_step_le.
  - apply flt_false_fle; [ | reflexivity | exact Hs'].
    unfold c'. rewrite (speed_of_ramp self clk' c Hsub).
    now apply clamp_step_not_nan.
  - intro Hneg. unfold c'. rewrite (speed_of_ramp self clk' c Hsub).
    now apply clamp_step_le.
Qed.

Lemma X11_witness :
  let self := node_with OPERATING reverse_cmd in
  let c := calcTargetAcceleration self at_1s reverse_cmd in
  let c' := calcTargetAcceleration self at_2s c in
  fle (acceleration_of c') (acceleration_of c) = true /\
  flt (acceleration_of c') (static_cast_float (target_acceleration default_params)) = false /\
  fle (Num 0) (speed_of c') = true /\
  fle (speed_of c') (speed_of c) = true.
Proof.
  intros self c c'.
  destruct (X11_second_step_on_is_monotone self at_1s at_2s reverse_cmd)
    as (H1 & H2 & H3 & H4); try (vm_compute; reflexivity).
  split; [exact H1 | split; [exact H2 | split; [exact H3 | ]]].
  apply H4. vm_compute. reflexivity.
Defined.

(** One step from a standing vehicle: the speed stays 0 and the
    acceleration stays finite and not positive. *)
Lemma standstill_step (self : Node) (clk : Clock) (prev : Command) :
  is_prev_control_cmd_subscribed_ self = true ->
  is_finite (target_jerk (params_ self)) = true ->
  fle (target_jerk (params_ self)) (Num 0) = true ->
  is_finite (static_cast_float (target_acceleration (params_ self))) = true ->
  fle (target_acceleration (params_ self)) (Num 0) = true ->
  is_float32 (acceleration_of prev) = true ->
  fle (acceleration_of prev) (Num 0) = true ->
  feq (speed_of prev) (Num 0) = true ->
  nonneg_finite (dt_of clk prev) = true ->
  feq (speed_of (calcTargetAcceleration self clk prev)) (Num 0) = true /\
  is_float32 (acceleration_of (calcTargetAcceleration self clk prev)) = true /\
  fle (acceleration_of (calcTargetAcceleration self clk prev)) (Num 0) = true.
Proof.
  intros Hsub Fj Lj Ft Lt Ha La Hs Hdt.
  rewrite (speed_of_ramp self clk prev Hsub), (acceleration_of_ramp self clk prev Hsub).
  split.
  { apply hold_step; try assumption.
    - now apply feq_0_is_float32.
    - now apply is_float32_finite. }
  set (x := dadd (acceleration_of prev)
                 (dmul (target_jerk (params_ self)) (dt_of clk prev))).
  assert (Hx : fle x (acceleration_of prev) = true) by now apply step_down.
  assert (Hm : fle (std_max x (target_acceleration (params_ self))) (Num 0) = true).
  { apply std_max_lub; [ | exact Lt]. now apply (fle_trans _ _ _ Hx). }
  assert (Hout : fle (static_cast_float (std_max x (target_acceleration (params_ self))))
                     (Num 0) = true).
  { now apply static_cast_float_le. }
  split; [ | exact Hout].
  apply static_cast_float_is_float32.
  apply (fle_between_finite
           (static_cast_float (target_acceleration (params_ self))) _ (Num 0));
    [exact Ft | reflexivity | | exact Hout].
  apply flt_false_fle; [ | | apply clamp_step_ge].
  - now apply fle_not_nan in Hout.
  - now apply finite_not_nan.
Qed.

(** X12.  A standing vehicle is kept standing: from a previous command with
    speed 0 and acceleration not positive, with target acceleration and
    target jerk not positive, elapsed times not negative and all these
    numbers finite, every output of the ramp has speed 0. *)
Theorem X12_standstill_is_kept (self : Node) (clks : list Clock) (prev : Command) :
  is_prev_control_cmd_subscribed_ self = true ->
  is_finite (target_jerk (params_ self)) = true ->
  fle (target_jerk (params_ self)) (Num 0) = true ->
  is_finite (static_cast_float (target_acceleration (params_ self))) = true ->
  fle (target_acceleration (params_ self)) (Num 0) = true ->
  is_float32 (acceleration_of prev) = true ->
  fle (acceleration_of prev) (Num 0) = true ->
  feq (speed_of prev) (Num 0) = true ->
  elapsed_nonneg self clks prev ->
  Forall (fun c => feq (speed_of c) (Num 0) = true) (ramp self clks prev).
Proof.
  intros Hsub Fj Lj Ft Lt. revert prev.
  induction clks as [ | clk clks IH]; intros prev Ha La Hs Hdt; [constructor | ].
  destruct Hdt as [Hdt Hrest]. cbn [ramp].
  destruct (standstill_step self clk prev Hsub Fj Lj Ft Lt Ha La Hs Hdt)
    as (Hs' & Ha' & La').
  constructor; [exact Hs' | now apply IH].
Qed.

Lemma X12_witness :
  Forall (fun c => feq (speed_of c) (Num 0) = true)
         (ramp (node_with OPERATING standstill_cmd) [at_1s; at_2s; at_4s] standstill_cmd).
Proof.
  apply (X12_standstill_is_kept (node_with OPERATING standstill_cmd)
           [at_1s; at_2s; at_4s] standstill_cmd); try (vm_compute; reflexivity).
  cbn [elapsed_nonneg]. repeat split; vm_compute; reflexivity.
Defined.



(** One second before the stamp of a command that brakes at 1 m/s^2 the
    ramp outputs acceleration 0.5; one nanosecond before the stamp it
    outputs the previous acceleration, the difference being lost in the
    conversion to float. *)
Example negative_elapsed_time_steps :
  acceleration_of
    (calcTargetAcceleration (node_with OPERATING future_cmd) at_1s future_cmd)
  = Num (1 # 2) /\
  dt_of at_1s just_ahead_cmd = Num (-4835703278458517 # 4835703278458516698824704) /\
  acceleration_of
    (calcTargetAcceleration (node_with OPERATING just_ahead_cmd) at_1s just_ahead_cmd)
  = Num (-1).
Proof. repeat split; vm_compute; reflexivity. Qed.
